(** * Conway's Game of Life on a bounded canvas grid

    A shallow embedding of the browser script (cells, board, animation
    controller) and of the static file server, with the properties of the
    written specification stated over it.

    JavaScript numbers are modelled as [Z]: with the configured constants
    every number the script computes is an integer (see
    [constants_divide_exactly]), and far below 2^53, up to which the
    arithmetic of JavaScript numbers on integers is exact.  A [TypeError] raised by reading a
    property of [undefined] is modelled as [None] in the option monad. *)

From Stdlib Require Import ZArith List Bool Lia Ascii String.
From stdpp Require Import base option list.
Import ListNotations.

Local Open Scope Z_scope.

(** ** Script constants *)

Definition canvasWidth : Z := 800.
Definition canvasHeight : Z := 800.
Definition cellsPerRow : Z := 100.

(** ** Loops

    [for (let i = 0; i < bound; i++) body] over an integer bound, in a state
    [S] that the body may fail to produce, and [for] over the elements of an
    array in index order. *)

Fixpoint for_loop {S : Type} (n : nat) (i : Z)
    (body : Z -> S -> option S) (s : S) : option S :=
  match n with
  | O => Some s
  | Datatypes.S n' => s' ← body i s; for_loop n' (i + 1) body s'
  end.

Definition for_range {S : Type} (bound : Z)
    (body : Z -> S -> option S) (s : S) : option S :=
  for_loop (Z.to_nat bound) 0 body s.

Fixpoint forEach {A S : Type} (body : A -> S -> option S)
    (l : list A) (s : S) : option S :=
  match l with
  | [] => Some s
  | x :: l' => s' ← body x s; forEach body l' s'
  end.

(** ** The canvas

    The 2D context is a write-only device for the script: it is modelled by
    its current [fillStyle] and the log of the rectangles drawn so far. *)

Inductive Style : Type :=
  | Hsla (hue saturation lightness alpha : Z).

Inductive DrawOp : Type :=
  | FillRect (style : Style) (x y w h : Z)
  | ClearRect (x y w h : Z).

Record Ctx : Type := mkCtx {
  fillStyle : Style;
  drawn : list DrawOp
}.

Definition set_fillStyle (s : Style) (ctx : Ctx) : Ctx :=
  {| fillStyle := s; drawn := drawn ctx |}.

Definition fillRect (x y w h : Z) (ctx : Ctx) : Ctx :=
  {| fillStyle := fillStyle ctx;
     drawn := drawn ctx ++ [FillRect (fillStyle ctx) x y w h] |}.

Definition clearRect (x y w h : Z) (ctx : Ctx) : Ctx :=
  {| fillStyle := fillStyle ctx;
     drawn := drawn ctx ++ [ClearRect x y w h] |}.

(** ** The random source

    [Math.random() < 0.1] is the only use of randomness.  The source is an
    oracle giving the outcome of the k-th draw, with the number of draws made
    so far as its state. *)

Record Rng : Type := mkRng {
  outcome : nat -> bool;
  drawsMade : nat
}.

Definition random_lt_tenth (g : Rng) : bool * Rng :=
  (outcome g (drawsMade g),
   {| outcome := outcome g; drawsMade := Datatypes.S (drawsMade g) |}).

(** ** Cells *)

Module Cell.

Record t : Type := mk {
  alive : bool;
  neighbours : list (Z * Z);
  livingNeighbous : Z;
  position : Z * Z;
  size : Z
}.

(** [new Cell(position, size, neighbours)] *)
Definition new (position : Z * Z) (size : Z) (neighbours : list (Z * Z))
    (g : Rng) : t * Rng :=
  let (a, g') := random_lt_tenth g in
  ({| alive := a;
      neighbours := neighbours;
      livingNeighbous := 0;
      position := position;
      size := size |}, g').

Definition set_alive (a : bool) (c : t) : t :=
  {| alive := a; neighbours := neighbours c;
     livingNeighbous := livingNeighbous c;
     position := position c; size := size c |}.

Definition set_livingNeighbous (n : Z) (c : t) : t :=
  {| alive := alive c; neighbours := neighbours c;
     livingNeighbous := n;
     position := position c; size := size c |}.

End Cell.

(** ** The board *)

Module Board.

Abbreviation Grid := (list (list Cell.t)) (only parsing).

Record t : Type := mk {
  rowLength : Z;
  columnLength : Z;
  cells : Grid;
  cellSize : Z
}.

(** [new Board(rowLength)]; [canvas.width] and [canvas.height] have been set
    to the constants before. *)
Definition new (rowLength : Z) : t :=
  {| rowLength := rowLength;
     columnLength := canvasHeight / (canvasWidth / cellsPerRow);
     cells := [];
     cellSize := canvasWidth / cellsPerRow |}.

Definition set_cells (g : Grid) (b : t) : t :=
  {| rowLength := rowLength b; columnLength := columnLength b;
     cells := g; cellSize := cellSize b |}.

Definition getCellCount (b : t) : Z := rowLength b * columnLength b.

Definition directions : list (Z * Z) :=
  [(-1, 0); (-1, 1); (0, 1); (1, 1); (1, 0); (1, -1); (0, -1); (-1, -1)].

(** Array indexing [a[i]]: [undefined] outside the array. *)
Definition index {A : Type} (a : list A) (i : Z) : option A :=
  if i <? 0 then None else a !! Z.to_nat i.

(** [cells[row][col]] followed by a property access: fails when the row or
    the cell is [undefined]. *)
Definition getCell (g : Grid) (row col : Z) : option Cell.t :=
  r ← index g row; index r col.

(** The cell object at [cells[row][col]] is mutated in place: the grid holds
    the new value of the object at that place. *)
Definition setCell (g : Grid) (row col : Z) (c : Cell.t) : Grid :=
  alter (fun r => <[Z.to_nat col := c]> r) (Z.to_nat row) g.

Definition isInBounds (b : t) (row col : Z) : bool :=
  (0 <=? row) && (row <? columnLength b) && (0 <=? col) && (col <? rowLength b).

Definition getNeighbours (b : t) (row col : Z) : list (Z * Z) :=
  fold_left
    (fun neighboursArr d =>
       if isInBounds b (row + fst d) (col + snd d)
       then neighboursArr ++ [(row + fst d, col + snd d)]
       else neighboursArr)
    directions [].

(** [draw]: one [fillRect] per cell, row by row. *)
Definition cellStyle (c : Cell.t) : Style :=
  if Cell.alive c
  then Hsla (fst (Cell.position c) + snd (Cell.position c) * 4) 80 80 100
  else Hsla 240 30 20 100.

Definition drawCell (c : Cell.t) (ctx : Ctx) : Ctx :=
  fillRect (snd (Cell.position c) * Cell.size c)
           (fst (Cell.position c) * Cell.size c)
           (Cell.size c) (Cell.size c)
           (set_fillStyle (cellStyle c) ctx).

Definition draw (b : t) (ctx : Ctx) : option Ctx :=
  for_range (columnLength b)
    (fun row => for_range (rowLength b)
       (fun col ctx => cell ← getCell (cells b) row col;
                       Some (drawCell cell ctx)))
    ctx.

(** [init]: the state threaded through the loops is the array under
    construction and the random source. *)
Definition init_cell (b : t) (row col : Z) (st : Grid * Rng)
    : option (Grid * Rng) :=
  let (g, rng) := st in
  let (c, rng') := Cell.new (row, col) (cellSize b) (getNeighbours b row col) rng in
  r ← index g row;
  Some (<[Z.to_nat row := r ++ [c]]> g, rng').

Definition init_row (b : t) (row : Z) (st : Grid * Rng)
    : option (Grid * Rng) :=
  let (g, rng) := st in
  for_range (rowLength b) (init_cell b row) (g ++ [[]], rng).

Definition init (b : t) (rng : Rng) (ctx : Ctx) : option (t * Rng * Ctx) :=
  '(g, rng') ← for_range (columnLength b) (init_row b) ([], rng);
  let b' := set_cells g b in
  ctx' ← draw b' ctx;
  Some (b', rng', ctx').

(** [updateLivingNeighbours]: the body of the two outer loops, for the cell
    at [(row, col)]. *)
Definition countNeighbour (row col : Z) (n : Z * Z) (g : Grid) : option Grid :=
  nb ← getCell g (fst n) (snd n);
  if Cell.alive nb
  then cell ← getCell g row col;
       Some (setCell g row col
               (Cell.set_livingNeighbous (Cell.livingNeighbous cell + 1) cell))
  else Some g.

Definition countCell (row col : Z) (g : Grid) : option Grid :=
  cell ← getCell g row col;
  forEach (countNeighbour row col) (Cell.neighbours cell)
    (setCell g row col (Cell.set_livingNeighbous 0 cell)).

Definition updateLivingNeighbours (b : t) : option t :=
  g ← for_range (columnLength b)
        (fun row => for_range (rowLength b) (fun col => countCell row col))
        (cells b);
  Some (set_cells g b).

(** [updateAliveStatus]: the two consecutive [if] statements on one cell. *)
Definition applyRule (cell : Cell.t) : Cell.t :=
  let cell1 :=
    if Cell.alive cell
    then if (Cell.livingNeighbous cell <? 2) || (Cell.livingNeighbous cell >? 3)
         then Cell.set_alive false cell else cell
    else cell in
  if negb (Cell.alive cell1)
  then if Cell.livingNeighbous cell1 =? 3
       then Cell.set_alive true cell1 else cell1
  else cell1.

Definition ruleCell (row col : Z) (g : Grid) : option Grid :=
  cell ← getCell g row col;
  Some (setCell g row col (applyRule cell)).

Definition updateAliveStatus (b : t) : option t :=
  g ← for_range (columnLength b)
        (fun row => for_range (rowLength b) (fun col => ruleCell row col))
        (cells b);
  Some (set_cells g b).

(** One generation, as [animate] performs it before redrawing. *)
Definition tick (b : t) : option t :=
  b1 ← updateLivingNeighbours b; updateAliveStatus b1.

End Board.

(** ** The written specification of one generation

    The reference follows the words of the specification: a neighbour is one
    of the up to 8 orthogonally or diagonally adjacent cells inside the
    board, a live cell with 2 or 3 live neighbours survives, a dead cell with
    exactly 3 live neighbours is born, every other cell is dead; all cells
    change at once, from the previous generation. *)

Module Reference.

Definition offsets : list (Z * Z) :=
  [(-1, -1); (-1, 0); (-1, 1); (0, -1); (0, 1); (1, -1); (1, 0); (1, 1)].

Definition aliveAt (b : Board.t) (row col : Z) : bool :=
  match Board.getCell (Board.cells b) row col with
  | Some cell => Cell.alive cell
  | None => false
  end.

Definition indicator (x : bool) : Z := if x then 1 else 0.

Definition liveNeighbours (b : Board.t) (row col : Z) : Z :=
  fold_right Z.add 0
    (map (fun d => indicator (Board.isInBounds b (row + fst d) (col + snd d)
                              && aliveAt b (row + fst d) (col + snd d)))
         offsets).

Definition rule (wasAlive : bool) (liveCount : Z) : bool :=
  if wasAlive then (liveCount =? 2) || (liveCount =? 3) else liveCount =? 3.

Definition nextCell (b : Board.t) (row col : Z) (cell : Cell.t) : Cell.t :=
  {| Cell.alive := rule (Cell.alive cell) (liveNeighbours b row col);
     Cell.neighbours := Cell.neighbours cell;
     Cell.livingNeighbous := liveNeighbours b row col;
     Cell.position := Cell.position cell;
     Cell.size := Cell.size cell |}.

Definition step (b : Board.t) : Board.t :=
  Board.set_cells
    (imap (fun r cellsOfRow =>
             imap (fun c cell => nextCell b (Z.of_nat r) (Z.of_nat c) cell)
                  cellsOfRow)
          (Board.cells b))
    b.

End Reference.

(** ** Boards as [init] leaves them

    The shape of the array agrees with the dimensions, and each cell carries
    its own position and the neighbour list computed for that position. *)

Definition shape (g : Board.Grid) : list nat := length <$> g.

Record well_formed (b : Board.t) : Prop := {
  wf_shape :
    shape (Board.cells b) =
    replicate (Z.to_nat (Board.columnLength b)) (Z.to_nat (Board.rowLength b));
  wf_cell : forall row col cell,
    Board.getCell (Board.cells b) row col = Some cell ->
    Cell.neighbours cell = Board.getNeighbours b row col /\
    Cell.position cell = (row, col) /\
    Cell.size cell = Board.cellSize b
}.

(** Visiting the cells in a given order instead of row by row. *)
Fixpoint zrange (n : nat) (i : Z) : list Z :=
  match n with
  | O => []
  | Datatypes.S n' => i :: zrange n' (i + 1)
  end.

Definition positions (b : Board.t) : list (Z * Z) :=
  list_prod (zrange (Z.to_nat (Board.columnLength b)) 0)
            (zrange (Z.to_nat (Board.rowLength b)) 0).

Definition tick_in_order (countOrder ruleOrder : list (Z * Z)) (b : Board.t)
    : option Board.t :=
  g1 ← forEach (fun p => Board.countCell (fst p) (snd p)) countOrder (Board.cells b);
  g2 ← forEach (fun p => Board.ruleCell (fst p) (snd p)) ruleOrder g1;
  Some (Board.set_cells g2 b).

(** The number of live cells among the places listed in [ns]. *)
Definition countAlive (g : Board.Grid) (ns : list (Z * Z)) : Z :=
  fold_right Z.add 0
    (map (fun n => match Board.getCell g (fst n) (snd n) with
                   | Some nb => Reference.indicator (Cell.alive nb)
                   | None => 0
                   end) ns).

(** A grid that differs from the board's only in the neighbour counts. *)
Definition agrees_but_count (b : Board.t) (g : Board.Grid) : Prop :=
  shape g = shape (Board.cells b) /\
  forall row col,
    Cell.set_livingNeighbous 0 <$> Board.getCell g row col =
    Cell.set_livingNeighbous 0 <$> Board.getCell (Board.cells b) row col.

(** A cell with its count set to the number of live cells, in the board [b],
    among the places of its neighbour list. *)
Definition counted (b : Board.t) (cell : Cell.t) : Cell.t :=
  Cell.set_livingNeighbous
    (countAlive (Board.cells b) (Cell.neighbours cell)) cell.

(** The board's cells, each with the count of its live neighbours in [b]. *)
Definition withCounts (b : Board.t) : Board.Grid :=
  imap (fun r cellsOfRow =>
          imap (fun c cell =>
                  Cell.set_livingNeighbous
                    (Reference.liveNeighbours b (Z.of_nat r) (Z.of_nat c)) cell)
               cellsOfRow)
       (Board.cells b).

Definition mapCells (f : Cell.t -> Cell.t) (g : Board.Grid) : Board.Grid :=
  (fun r : list Cell.t => f <$> r) <$> g.

(** An order of visit that reaches exactly the cells of the board. *)
Definition covers (order : list (Z * Z)) (b : Board.t) : Prop :=
  forall row col, (row, col) ∈ order <-> Board.isInBounds b row col = true.


(** ** Closed forms of what [init] builds and [draw] paints *)

Definition advance (k : nat) (rng : Rng) : Rng :=
  {| outcome := outcome rng; drawsMade := (k + drawsMade rng)%nat |}.

Fixpoint freshRow (b : Board.t) (row : Z) (n : nat) (col : Z) (rng : Rng)
    : list Cell.t :=
  match n with
  | O => []
  | Datatypes.S n' =>
      fst (Cell.new (row, col) (Board.cellSize b)
             (Board.getNeighbours b row col) rng)
      :: freshRow b row n' (col + 1) (advance 1 rng)
  end.

Fixpoint freshRows (b : Board.t) (n : nat) (row : Z) (rng : Rng)
    : list (list Cell.t) :=
  match n with
  | O => []
  | Datatypes.S n' =>
      freshRow b row (Z.to_nat (Board.rowLength b)) 0 rng
      :: freshRows b n' (row + 1) (advance (Z.to_nat (Board.rowLength b)) rng)
  end.

Definition fillOf (cell : Cell.t) : DrawOp :=
  FillRect (Board.cellStyle cell)
    (snd (Cell.position cell) * Cell.size cell)
    (fst (Cell.position cell) * Cell.size cell)
    (Cell.size cell) (Cell.size cell).

Definition drawOps (b : Board.t) : list DrawOp :=
  flat_map (fun p => match Board.getCell (Board.cells b) (fst p) (snd p) with
                     | Some cell => [fillOf cell]
                     | None => []
                     end)
           (positions b).

(** ** The page: script globals and the browser's pending callbacks

    [frames] holds the handles of the animation frames requested and not yet
    run or cancelled (their callback is always [animate]); [timers] holds the
    delays of the pending [setTimeout] callbacks (always the closure created
    in [animate]). *)

Record Page : Type := mkPage {
  ctx : Ctx;
  rng : Rng;
  lastTime : option Z;
  frames : list Z;
  timers : list Z;
  nextHandle : Z
}.

Definition set_ctx (c : Ctx) (p : Page) : Page :=
  {| ctx := c; rng := rng p; lastTime := lastTime p;
     frames := frames p; timers := timers p; nextHandle := nextHandle p |}.

Definition set_rng (g : Rng) (p : Page) : Page :=
  {| ctx := ctx p; rng := g; lastTime := lastTime p;
     frames := frames p; timers := timers p; nextHandle := nextHandle p |}.

Definition set_lastTime (t : Z) (p : Page) : Page :=
  {| ctx := ctx p; rng := rng p; lastTime := Some t;
     frames := frames p; timers := timers p; nextHandle := nextHandle p |}.

Definition set_frames (l : list Z) (p : Page) : Page :=
  {| ctx := ctx p; rng := rng p; lastTime := lastTime p;
     frames := l; timers := timers p; nextHandle := nextHandle p |}.

Definition set_timers (l : list Z) (p : Page) : Page :=
  {| ctx := ctx p; rng := rng p; lastTime := lastTime p;
     frames := frames p; timers := l; nextHandle := nextHandle p |}.

Definition requestAnimationFrame (p : Page) : Z * Page :=
  (nextHandle p,
   {| ctx := ctx p; rng := rng p; lastTime := lastTime p;
      frames := frames p ++ [nextHandle p]; timers := timers p;
      nextHandle := nextHandle p + 1 |}).

Definition cancelAnimationFrame (handle : Z) (p : Page) : Page :=
  set_frames (List.filter (fun h => negb (h =? handle)) (frames p)) p.

Definition setTimeout (delay : Z) (p : Page) : Page :=
  set_timers (timers p ++ [delay]) p.

(** The page when the script starts: a blank canvas, nothing pending. *)
Definition freshPage (draws : nat -> bool) : Page :=
  {| ctx := {| fillStyle := Hsla 0 0 0 100; drawn := [] |};
     rng := {| outcome := draws; drawsMade := 0 |};
     lastTime := None;
     frames := [];
     timers := [];
     nextHandle := 1 |}.

(** ** The animation controller *)

Module AnimationController.

Record t : Type := mk {
  fps : Z;
  board : Board.t;
  isPlaying : bool;
  tref : Z
}.

Definition State : Type := t * Page.

Definition set_board (b : Board.t) (a : t) : t :=
  {| fps := fps a; board := b; isPlaying := isPlaying a; tref := tref a |}.

Definition set_isPlaying (x : bool) (a : t) : t :=
  {| fps := fps a; board := board a; isPlaying := x; tref := tref a |}.

Definition set_tref (h : Z) (a : t) : t :=
  {| fps := fps a; board := board a; isPlaying := isPlaying a; tref := h |}.

(** [new AnimationController(fps)] *)
Definition new (fps : Z) (p : Page) : option State :=
  '(b, rng', ctx') ← Board.init (Board.new cellsPerRow) (rng p) (ctx p);
  Some ({| fps := fps; board := b; isPlaying := false; tref := 0 |},
        set_ctx ctx' (set_rng rng' p)).

(** The callback given to [setTimeout] at the end of [animate]. *)
Definition timerFired (st : State) : State :=
  let (a, p) := st in
  if isPlaying a
  then let (h, p') := requestAnimationFrame p in (set_tref h a, p')
  else (a, cancelAnimationFrame (tref a) p).

(** [animate(time)]; the console output is not modelled. *)
Definition animate (time : Z) (st : State) : option State :=
  let (a, p) := st in
  let p1 := set_lastTime time p in
  b1 ← Board.updateLivingNeighbours (board a);
  b2 ← Board.updateAliveStatus b1;
  ctx' ← Board.draw b2 (ctx p1);
  Some (set_board b2 a, setTimeout (1000 / fps a) (set_ctx ctx' p1)).

Definition pause (st : State) : State :=
  let (a, p) := st in
  if isPlaying a then (set_isPlaying false a, p) else (a, p).

Definition play (st : State) : State :=
  let (a, p) := st in
  if negb (isPlaying a)
  then let a1 := set_isPlaying true a in
       let (h, p') := requestAnimationFrame p in
       (set_tref h a1, p')
  else (a, p).

Definition restart (st : State) : option State :=
  let (a, p) := pause st in
  let p1 := set_ctx (clearRect 0 0 canvasWidth canvasHeight (ctx p)) p in
  '(b, rng', ctx') ← Board.init (board a) (rng p1) (ctx p1);
  Some (set_board b a, set_ctx ctx' (set_rng rng' p1)).

End AnimationController.

(** ** What can happen on the page

    The three buttons, a requested animation frame becoming due (with the
    time stamp the browser passes), and a pending timer becoming due. *)

Inductive Event : Type :=
  | PlayClicked
  | PauseClicked
  | RestartClicked
  | FrameDue (handle time : Z)
  | TimerDue (k : nat).

Definition dispatch (ev : Event) (st : AnimationController.State)
    : option AnimationController.State :=
  match ev with
  | PlayClicked => Some (AnimationController.play st)
  | PauseClicked => Some (AnimationController.pause st)
  | RestartClicked => AnimationController.restart st
  | FrameDue handle time =>
      let (a, p) := st in
      if bool_decide (handle ∈ frames p)
      then AnimationController.animate time
             (a, set_frames (List.filter (fun h => negb (h =? handle)) (frames p)) p)
      else None
  | TimerDue k =>
      let (a, p) := st in
      match timers p !! k with
      | Some _ => Some (AnimationController.timerFired (a, set_timers (delete k (timers p)) p))
      | None => None
      end
  end.

Definition run (evs : list Event) (st : AnimationController.State)
    : option AnimationController.State :=
  forEach dispatch evs st.

(** The script's controller: [let ac = new AnimationController(5)]. *)
Definition ac (draws : nat -> bool) : option AnimationController.State :=
  AnimationController.new 5 (freshPage draws).

(** ** Notions used to state the properties *)

(** [n] is one of the 8 places orthogonally or diagonally next to [p]. *)
Definition adjacent (p n : Z * Z) : Prop :=
  Z.max (Z.abs (fst n - fst p)) (Z.abs (snd n - snd p)) = 1.

(** The boards the script can hold: what [init] returns, and every board a
    generation later. *)
Inductive reachable : Board.t -> Prop :=
  | reach_init b0 rng0 ctx0 b rng1 ctx1 :
      Board.init b0 rng0 ctx0 = Some (b, rng1, ctx1) -> reachable b
  | reach_tick b b' :
      reachable b -> Board.tick b = Some b' -> reachable b'.

Fixpoint generations (n : nat) (b : Board.t) : option Board.t :=
  match n with
  | O => Some b
  | Datatypes.S n' => b' ← Board.tick b; generations n' b'
  end.

(** The part of a cell that is fixed when it is created. *)
Definition frameOf (cell : Cell.t) : (Z * Z) * Z * list (Z * Z) :=
  (Cell.position cell, Cell.size cell, Cell.neighbours cell).

Definition same_frame (b b' : Board.t) : Prop :=
  Board.rowLength b' = Board.rowLength b /\
  Board.columnLength b' = Board.columnLength b /\
  Board.cellSize b' = Board.cellSize b /\
  shape (Board.cells b') = shape (Board.cells b) /\
  forall row col,
    frameOf <$> Board.getCell (Board.cells b') row col =
    frameOf <$> Board.getCell (Board.cells b) row col.

(** Everything of a cell but its transient neighbour count. *)
Definition generationOf (cell : Cell.t) : bool * ((Z * Z) * Z * list (Z * Z)) :=
  (Cell.alive cell, frameOf cell).

Definition all_dead (b : Board.t) : Prop :=
  forall row col cell,
    Board.getCell (Board.cells b) row col = Some cell -> Cell.alive cell = false.

(** The 2 x 2 block with its upper left cell at [(top, left)]. *)
Definition inBlock (top left row col : Z) : bool :=
  (top <=? row) && (row <=? top + 1) && (left <=? col) && (col <=? left + 1).

Definition only_block_alive (top left : Z) (b : Board.t) : Prop :=
  forall row col cell,
    Board.getCell (Board.cells b) row col = Some cell ->
    Cell.alive cell = inBlock top left row col.

(** A small board for examples: [rows] x [cols] cells as [init] makes them
    from the draws [draws]. *)
Definition exampleBoard (rows cols : Z) (draws : nat -> bool) : Board.t :=
  let b0 := {| Board.rowLength := cols; Board.columnLength := rows;
               Board.cells := []; Board.cellSize := 8 |} in
  Board.set_cells
    (freshRows b0 (Z.to_nat rows) 0 {| outcome := draws; drawsMade := 0 |}) b0.

Definition drawsOf (l : list nat) (k : nat) : bool :=
  bool_decide (k ∈ l).

(** The number of cells of the block next to [(row, col)]. *)
Definition blockNeighbours (top left row col : Z) : Z :=
  fold_right Z.add 0
    (map (fun d => Reference.indicator
                     (inBlock top left (row + fst d) (col + snd d)))
         Reference.offsets).

(** The dimensions of the board a controller state holds. *)
Definition dimensions (st : AnimationController.State) : Z * Z :=
  (Board.rowLength (AnimationController.board (fst st)),
   Board.columnLength (AnimationController.board (fst st))).

(** Two controller states for examples, on a small board. *)
Definition examplePage (pending : list Z) : Page :=
  {| ctx := {| fillStyle := Hsla 0 0 0 100; drawn := [] |};
     rng := {| outcome := drawsOf []; drawsMade := 9 |};
     lastTime := None;
     frames := pending;
     timers := [];
     nextHandle := 2 |}.

Definition examplePlaying : AnimationController.State :=
  ({| AnimationController.fps := 5;
      AnimationController.board := exampleBoard 3 3 (drawsOf [1; 4; 7]%nat);
      AnimationController.isPlaying := true;
      AnimationController.tref := 1 |},
   examplePage [1]).

Definition exampleStopped : AnimationController.State :=
  ({| AnimationController.fps := 5;
      AnimationController.board := exampleBoard 3 3 (drawsOf [1; 4; 7]%nat);
      AnimationController.isPlaying := false;
      AnimationController.tref := 0 |},
   examplePage []).

(** ** Notions used for further properties of the script *)

(** Dimensions below 2^53: there every position of the board and the
    positions next to it are integers a JavaScript number holds exactly, so
    that [row + d] and [col + d] in [getNeighbours] are the exact sums. *)
Definition exact_positions (b : Board.t) : Prop :=
  Board.rowLength b < 2 ^ 53 /\ Board.columnLength b < 2 ^ 53.

(** The number of indices among [i - 1], [i], [i + 1] that lie in [0 .. n). *)
Definition span (i n : Z) : Z :=
  1 + (if 0 <? i then 1 else 0) + (if i + 1 <? n then 1 else 0).

(** Two boards hold the same cells up to the neighbour counts. *)
Definition same_but_counts (b1 b2 : Board.t) : Prop :=
  Board.rowLength b1 = Board.rowLength b2 /\
  Board.columnLength b1 = Board.columnLength b2 /\
  Board.cellSize b1 = Board.cellSize b2 /\
  forall row col,
    Cell.set_livingNeighbous 0 <$> Board.getCell (Board.cells b1) row col =
    Cell.set_livingNeighbous 0 <$> Board.getCell (Board.cells b2) row col.

(** Two boards agree on the alive flags of [(row, col)] and of the places
    next to it. *)
Definition agree_around (b1 b2 : Board.t) (row col : Z) : Prop :=
  forall r c,
    Z.abs (r - row) <= 1 -> Z.abs (c - col) <= 1 ->
    Reference.aliveAt b1 r c = Reference.aliveAt b2 r c.

(** The callbacks the browser runs by itself, as opposed to the clicks. *)
Definition isCallback (ev : Event) : bool :=
  match ev with
  | FrameDue _ _ | TimerDue _ => true
  | _ => false
  end.

Definition isFrame (ev : Event) : bool :=
  match ev with
  | FrameDue _ _ => true
  | _ => false
  end.

(** The rounds of one running loop: the frame with handle [h] is delivered
    at the first time stamp, the timer it sets becomes due and requests the
    frame [h + 1], and so on. *)
Fixpoint rounds (times : list Z) (h : Z) : list Event :=
  match times with
  | [] => []
  | t :: ts => FrameDue h t :: TimerDue 0 :: rounds ts (h + 1)
  end.

(** A rectangle of the size of a cell of the script's board that lies on the
    canvas, on the grid of cells. *)
Definition onCanvas (op : DrawOp) : Prop :=
  match op with
  | FillRect _ x y w h =>
      w = canvasWidth / cellsPerRow /\ h = canvasWidth / cellsPerRow /\
      0 <= x /\ x + w <= canvasWidth /\ 0 <= y /\ y + h <= canvasHeight /\
      x mod w = 0 /\ y mod h = 0
  | ClearRect _ _ _ _ => False
  end.

(** An event the page can deliver in a state: a click at any time, a frame
    that is pending, a timer that is pending. *)
Definition enabled (ev : Event) (st : AnimationController.State) : Prop :=
  match ev with
  | FrameDue handle _ => handle ∈ frames (snd st)
  | TimerDue k => (k < length (timers (snd st)))%nat
  | _ => True
  end.

(** A controller in the middle of a round on a small board: playing, no
    frame requested, the timer of the last tick pending. *)
Definition exampleWaiting : AnimationController.State :=
  ({| AnimationController.fps := 5;
      AnimationController.board := exampleBoard 3 3 (drawsOf [1; 4; 7]%nat);
      AnimationController.isPlaying := true;
      AnimationController.tref := 1 |},
   {| ctx := {| fillStyle := Hsla 0 0 0 100; drawn := [] |};
      rng := {| outcome := drawsOf []; drawsMade := 9 |};
      lastTime := Some 16;
      frames := [];
      timers := [200];
      nextHandle := 2 |}).

(** ** The static file server

    The server script configures an Express application: it mounts the
    static middleware, registers one route and listens.  The application is
    modelled by the layers registered, in order, and the port it listens on.

    How a request is matched against the layers is Express's routing with
    its default settings, given here for the methods below and for request
    URLs made of a path and an optional query string:
    the path of a request is its URL up to the query string, paths are
    compared without regard to case, a mount path matches the paths at or
    below it, a route matches its own path with or without a slash at the
    end, and a GET route also answers HEAD requests.  What the static
    middleware answers depends on the files on disk: it is a parameter. *)

Module Server.

Inductive Method : Type := GET | HEAD | POST | PUT | DELETE.

Record Request : Type := mkRequest {
  method : Method;
  url : string
}.

(** A file sent with status 200 (for HEAD, its headers), or the final 404. *)
Inductive Response : Type :=
  | SentFile (path : string)
  | NotFound.

Inductive Handler : Type :=
  | Static (root : string)
  | SendFile (path : string).

Inductive Layer : Type :=
  | Use (mount : string) (h : Handler)
  | Route (m : Method) (path : string) (h : Handler).

Record App : Type := mkApp {
  stack : list Layer;
  listening : option Z
}.

(** [express()], [app.use], [app.get], [app.listen] *)
Definition express : App := {| stack := []; listening := None |}.

Definition use (mount : string) (h : Handler) (a : App) : App :=
  {| stack := stack a ++ [Use mount h]; listening := listening a |}.

Definition get (path : string) (h : Handler) (a : App) : App :=
  {| stack := stack a ++ [Route GET path h]; listening := listening a |}.

Definition listen (p : Z) (a : App) : App :=
  {| stack := stack a; listening := Some p |}.

Definition port : Z := 5000.

(** [path.join(dir, name)] for a directory name without a trailing
    separator. *)
Definition join (dir name : string) : string :=
  String.append dir (String.append "/" name).

(** The script, run in the directory [dirname]. *)
Definition app (dirname : string) : App :=
  listen port
    (get "/" (SendFile (String.append dirname "/index.html"))
       (use "/public" (Static (join dirname "public")) express)).

(** The path of a URL: what comes before the query string. *)
Fixpoint pathname (u : string) : string :=
  match u with
  | EmptyString => EmptyString
  | String c rest =>
      if Ascii.eqb c "?"%char then EmptyString else String c (pathname rest)
  end.

Definition lowerChar (c : Ascii.ascii) : Ascii.ascii :=
  let n := Ascii.nat_of_ascii c in
  if ((65 <=? n) && (n <=? 90))%nat then Ascii.ascii_of_nat (n + 32) else c.

Fixpoint lower (s : string) : string :=
  match s with
  | EmptyString => EmptyString
  | String c rest => String (lowerChar c) (lower rest)
  end.

Fixpoint endsWithSlash (s : string) : bool :=
  match s with
  | EmptyString => false
  | String c EmptyString => Ascii.eqb c "/"%char
  | String _ rest => endsWithSlash rest
  end.

(** [app.use(mount, ...)]: the request is at or below the mount path; the
    middleware is given the rest of the path. *)
Definition underMount (mount : string) (req : Request) : option string :=
  let p := pathname (url req) in
  if String.eqb (lower p) (lower mount) then Some "/"%string
  else if String.prefix (String.append (lower mount) "/") (lower p)
  then Some (String.substring (String.length mount)
               (String.length p - String.length mount) p)
  else None.

(** [app.METHOD(path, ...)]: the method of the route, or HEAD on a GET
    route, and the path of the route, with or without a slash at its end. *)
Definition matchesMethod (m : Method) (req : Request) : bool :=
  match m, method req with
  | GET, GET | GET, HEAD | HEAD, HEAD | POST, POST | PUT, PUT
  | DELETE, DELETE => true
  | _, _ => false
  end.

Definition matchesPath (path : string) (req : Request) : bool :=
  let p := lower (pathname (url req)) in
  String.eqb p (lower path)
  || (negb (endsWithSlash path)
      && String.eqb p (String.append (lower path) "/")).

Definition matchesRoute (m : Method) (path : string) (req : Request) : bool :=
  matchesMethod m req && matchesPath path req.

Section Express.
Variable serveStatic : string -> string -> Request -> option Response.

(** A handler answers or passes the request on ([None]); [serveStatic root
    rest req] is the answer of [express.static(root)] to the request [req]
    for the path [rest] below the mount. *)
Definition runHandler (h : Handler) (rest : string) (req : Request)
    : option Response :=
  match h with
  | Static root => serveStatic root rest req
  | SendFile path => Some (SentFile path)
  end.

Definition runLayer (l : Layer) (req : Request) : option Response :=
  match l with
  | Use mount h => rest ← underMount mount req; runHandler h rest req
  | Route m path h =>
      if matchesRoute m path req then runHandler h (url req) req else None
  end.

(** The layers are tried in the order of registration; a request that no
    layer answers gets the final 404. *)
Fixpoint handle (layers : list Layer) (req : Request) : Response :=
  match layers with
  | [] => NotFound
  | l :: ls =>
      match runLayer l req with
      | Some r => r
      | None => handle ls req
      end
  end.

(** The answer of the script's application, run in [dirname]. *)
Definition respond (dirname : string) (req : Request) : Response :=
  handle (stack (app dirname)) req.
End Express.


End Server.

(** ** Proof tools *)

(** Case analysis on the first integer comparison in the goal. *)
Ltac case_compare :=
  match goal with
  | |- context [?x <? ?y] => destruct (Z.ltb_spec x y)
  | |- context [?x >? ?y] => destruct (Z.gtb_spec x y)
  | |- context [?x =? ?y] => destruct (Z.eqb_spec x y)
  | |- context [?x <=? ?y] => destruct (Z.leb_spec x y)
  end.
(** * Facts about loops and grids *)

(** The divisions of the script are exact: 800 / 100 for the cell size,
    800 / 8 for the number of rows, 1000 / 5 for the delay of the timer. *)
Lemma constants_divide_exactly :
  canvasWidth mod cellsPerRow = 0 /\
  canvasHeight mod (canvasWidth / cellsPerRow) = 0 /\
  Board.columnLength (Board.new cellsPerRow) = 100 /\
  Board.cellSize (Board.new cellsPerRow) = 8 /\
  1000 mod 5 = 0.
Proof. by vm_compute. Qed.

Section Loops.
Context {A S : Type}.

Lemma for_loop_forEach (body : Z -> S -> option S) n i s :
  for_loop n i body s = forEach body (zrange n i) s.
Proof.
  revert i s. induction n as [|n IH]; intros i s; simpl; [done|].
  destruct (body i s); simpl; auto.
Qed.

Lemma forEach_app (body : A -> S -> option S) l1 l2 s :
  forEach body (l1 ++ l2) s = s' ← forEach body l1 s; forEach body l2 s'.
Proof.
  revert s. induction l1 as [|x l1 IH]; intros s; simpl; [done|].
  destruct (body x s); simpl; auto.
Qed.

Lemma forEach_map {B : Type} (f : B -> A) (body : A -> S -> option S) l s :
  forEach body (map f l) s = forEach (fun x => body (f x)) l s.
Proof.
  revert s. induction l as [|x l IH]; intros s; simpl; [done|].
  destruct (body (f x) s); simpl; auto.
Qed.
End Loops.

Lemma forEach_nested {S : Type} (body : Z -> Z -> S -> option S) rs cs s :
  forEach (fun r => forEach (fun c => body r c) cs) rs s =
  forEach (fun p => body (fst p) (snd p)) (list_prod rs cs) s.
Proof.
  revert s. induction rs as [|r rs IH]; intros s; simpl; [done|].
  rewrite forEach_app, forEach_map. simpl.
  destruct (forEach _ cs s); simpl; auto.
Qed.

Lemma elem_of_zrange n i x :
  x ∈ zrange n i <-> i <= x < i + Z.of_nat n.
Proof.
  revert i. induction n as [|n IH]; intros i; simpl.
  - rewrite elem_of_nil. lia.
  - rewrite elem_of_cons, IH. lia.
Qed.

Lemma elem_of_positions b row col :
  (row, col) ∈ positions b <-> Board.isInBounds b row col = true.
Proof.
  unfold positions, Board.isInBounds.
  rewrite list_elem_of_In, in_prod_iff, <- !list_elem_of_In, !elem_of_zrange.
  rewrite !andb_true_iff, !Z.leb_le, !Z.ltb_lt. lia.
Qed.

Section Grids.
Implicit Types (g : Board.Grid) (row col : Z) (x y : Cell.t).

Lemma index_Some {A : Type} (a : list A) i v :
  Board.index a i = Some v <-> 0 <= i /\ a !! Z.to_nat i = Some v.
Proof.
  unfold Board.index. destruct (Z.ltb_spec i 0); split.
  - discriminate.
  - intros [? _]; lia.
  - auto with lia.
  - tauto.
Qed.

Lemma getCell_Some g row col x :
  Board.getCell g row col = Some x <->
  0 <= row /\ 0 <= col /\
  exists r, g !! Z.to_nat row = Some r /\ r !! Z.to_nat col = Some x.
Proof.
  unfold Board.getCell. split.
  - intros H. destruct (Board.index g row) as [r|] eqn:Hr; [|discriminate].
    simpl in H. apply index_Some in Hr as [? ?], H as [? ?]. eauto 6.
  - intros (? & ? & r & Hr & Hx).
    assert (Board.index g row = Some r) as -> by (apply index_Some; auto).
    simpl. apply index_Some; auto.
Qed.

Lemma getCell_negative g row col :
  row < 0 \/ col < 0 -> Board.getCell g row col = None.
Proof.
  intros H. destruct (Board.getCell g row col) eqn:E; [|done].
  apply getCell_Some in E. lia.
Qed.

Lemma shape_setCell g row col x : shape (Board.setCell g row col x) = shape g.
Proof.
  unfold shape, Board.setCell. apply list_eq. intros i.
  rewrite !list_lookup_fmap.
  destruct (decide (Z.to_nat row = i)) as [<-|Hne].
  - rewrite list_lookup_alter_eq.
    destruct (g !! Z.to_nat row); simpl; [|done].
    by rewrite length_insert.
  - by rewrite list_lookup_alter_ne.
Qed.

Lemma getCell_setCell g row col x y row' col' :
  Board.getCell g row col = Some x ->
  Board.getCell (Board.setCell g row col y) row' col' =
  if decide ((row', col') = (row, col)) then Some y
  else Board.getCell g row' col'.
Proof.
  intros Hx. apply getCell_Some in Hx as (Hr & Hc & r & Hgr & Hrx).
  destruct (Z.ltb_spec row' 0) as [Hn|Hp].
  { rewrite !getCell_negative by auto. case_decide; [|done]. simplify_eq. lia. }
  destruct (Z.ltb_spec col' 0) as [Hn|Hp'].
  { rewrite !getCell_negative by auto. case_decide; [|done]. simplify_eq. lia. }
  unfold Board.getCell, Board.index, Board.setCell.
  destruct (Z.ltb_spec row' 0); [lia|].
  destruct (Z.ltb_spec col' 0); [lia|].
  destruct (decide (row' = row)) as [->|Hne].
  - rewrite list_lookup_alter_eq, Hgr. simpl.
    destruct (Z.ltb_spec col' 0); [lia|].
    destruct (decide (col' = col)) as [->|Hne].
    + rewrite decide_True by done. apply list_lookup_insert_eq.
      by eapply lookup_lt_Some.
    + rewrite decide_False by congruence.
      apply list_lookup_insert_ne. lia.
  - rewrite decide_False by congruence.
    rewrite list_lookup_alter_ne by lia. done.
Qed.

Lemma getCell_setCell_eq g row col x y :
  Board.getCell g row col = Some x ->
  Board.getCell (Board.setCell g row col y) row col = Some y.
Proof. intros H. erewrite getCell_setCell by done. by rewrite decide_True. Qed.

Lemma setCell_setCell g row col x y :
  Board.setCell (Board.setCell g row col x) row col y = Board.setCell g row col y.
Proof.
  unfold Board.setCell. rewrite list_alter_alter_eq.
  apply list_alter_ext; [|done]. intros r _. simpl.
  apply list_insert_insert_eq.
Qed.

Lemma setCell_id g row col x :
  Board.getCell g row col = Some x -> Board.setCell g row col x = g.
Proof.
  intros Hx. apply getCell_Some in Hx as (Hr & Hc & r & Hgr & Hrx).
  unfold Board.setCell. apply list_eq. intros i.
  destruct (decide (Z.to_nat row = i)) as [<-|Hne].
  - rewrite list_lookup_alter_eq, Hgr. simpl. by rewrite list_insert_id.
  - by rewrite list_lookup_alter_ne.
Qed.

(** Two grids of one shape with the same cell at every place are equal. *)
Lemma grid_ext g1 g2 :
  shape g1 = shape g2 ->
  (forall row col, Board.getCell g1 row col = Board.getCell g2 row col) ->
  g1 = g2.
Proof.
  intros Hs Hc. apply list_eq. intros i.
  assert (length <$> g1 !! i = length <$> g2 !! i) as Hl.
  { unfold shape in Hs. by rewrite <- !list_lookup_fmap, Hs. }
  destruct (g1 !! i) as [r1|] eqn:H1, (g2 !! i) as [r2|] eqn:H2;
    simpl in Hl; try done.
  f_equal. apply list_eq. intros j.
  specialize (Hc (Z.of_nat i) (Z.of_nat j)).
  unfold Board.getCell, Board.index in Hc.
  destruct (Z.ltb_spec (Z.of_nat i) 0); [lia|].
  destruct (Z.ltb_spec (Z.of_nat j) 0); [lia|].
  rewrite !Nat2Z.id, H1, H2 in Hc. simpl in Hc.
  destruct (Z.ltb_spec (Z.of_nat j) 0); [lia|]. done.
Qed.
End Grids.

(** * The counting pass on one cell *)

Section Counting.
Implicit Types (g : Board.Grid) (row col : Z) (ns : list (Z * Z)).

Lemma countAlive_setCell g row col cell y ns :
  Board.getCell g row col = Some cell ->
  Cell.alive y = Cell.alive cell ->
  countAlive (Board.setCell g row col y) ns = countAlive g ns.
Proof.
  intros Hc Ha. unfold countAlive. f_equal. apply map_ext. intros [r c]; simpl.
  erewrite getCell_setCell by done.
  case_decide; [|done]. simplify_eq. by rewrite Hc, Ha.
Qed.

Lemma set_count_set_count n m (cell : Cell.t) :
  Cell.set_livingNeighbous n (Cell.set_livingNeighbous m cell) =
  Cell.set_livingNeighbous n cell.
Proof. done. Qed.

Lemma set_count_same (cell : Cell.t) :
  Cell.set_livingNeighbous (Cell.livingNeighbous cell) cell = cell.
Proof. by destruct cell. Qed.

Lemma countNeighbour_spec g row col cell n nb :
  Board.getCell g row col = Some cell ->
  Board.getCell g (fst n) (snd n) = Some nb ->
  Board.countNeighbour row col n g =
  Some (if Cell.alive nb
        then Board.setCell g row col
               (Cell.set_livingNeighbous (Cell.livingNeighbous cell + 1) cell)
        else g).
Proof.
  intros Hc Hnb. unfold Board.countNeighbour. rewrite Hnb. simpl.
  destruct (Cell.alive nb); [|done]. by rewrite Hc.
Qed.

Lemma forEach_countNeighbour ns : forall g row col cell,
  Board.getCell g row col = Some cell ->
  (forall n, n ∈ ns -> is_Some (Board.getCell g (fst n) (snd n))) ->
  forEach (Board.countNeighbour row col) ns g =
  Some (Board.setCell g row col
          (Cell.set_livingNeighbous
             (Cell.livingNeighbous cell + countAlive g ns) cell)).
Proof.
  induction ns as [|n ns IH]; intros g row col cell Hc Hns.
  - simpl. unfold countAlive; simpl.
    rewrite Z.add_0_r, set_count_same. by rewrite setCell_id.
  - destruct (Hns n) as [nb Hnb]; [by left|].
    assert (countAlive g (n :: ns) =
            Reference.indicator (Cell.alive nb) + countAlive g ns) as ->.
    { unfold countAlive; simpl. by rewrite Hnb. }
    cbn [forEach]. rewrite (countNeighbour_spec g row col cell n nb) by done.
    cbn [mbind option_bind].
    destruct (Cell.alive nb); simpl.
    + set (cell1 := Cell.set_livingNeighbous (Cell.livingNeighbous cell + 1) cell).
      rewrite (IH _ row col cell1).
      * rewrite setCell_setCell.
        rewrite (countAlive_setCell _ _ _ cell) by done.
        subst cell1. rewrite set_count_set_count. simpl.
        do 3 f_equal. lia.
      * by eapply getCell_setCell_eq.
      * intros m Hm. erewrite getCell_setCell by done.
        case_decide; [done|]. apply Hns. by right.
    + rewrite (IH g row col cell Hc).
      * done.
      * intros m Hm. apply Hns. by right.
Qed.

Lemma countCell_spec g row col cell :
  Board.getCell g row col = Some cell ->
  (forall n, n ∈ Cell.neighbours cell ->
             is_Some (Board.getCell g (fst n) (snd n))) ->
  Board.countCell row col g =
  Some (Board.setCell g row col
          (Cell.set_livingNeighbous
             (countAlive g (Cell.neighbours cell)) cell)).
Proof.
  intros Hc Hns. unfold Board.countCell. rewrite Hc. simpl.
  set (cell0 := Cell.set_livingNeighbous 0 cell).
  rewrite (forEach_countNeighbour _ _ row col cell0).
  - rewrite setCell_setCell.
    by rewrite (countAlive_setCell _ _ _ cell).
  - by eapply getCell_setCell_eq.
  - intros m Hm. erewrite getCell_setCell by done.
    case_decide; [done|]. by apply Hns.
Qed.
End Counting.

(** * A pass over the cells in any order

    A pass whose body replaces the visited cell by [upd] of it, as long as an
    invariant [Inv] of the grid holds, leaves [upd] of every visited cell and
    every other cell as it was. *)

Section Pass.
Variable Inv : Board.Grid -> Prop.
Variable body : Z -> Z -> Board.Grid -> option Board.Grid.
Variable upd : Cell.t -> Cell.t.

Hypothesis body_spec : forall g row col cell,
  Inv g -> Board.getCell g row col = Some cell ->
  body row col g = Some (Board.setCell g row col (upd cell)).
Hypothesis Inv_step : forall g row col cell,
  Inv g -> Board.getCell g row col = Some cell ->
  Inv (Board.setCell g row col (upd cell)).
Hypothesis upd_idem : forall cell, upd (upd cell) = upd cell.

Lemma pass_pointwise ps : forall g,
  Inv g ->
  (forall p, p ∈ ps -> is_Some (Board.getCell g (fst p) (snd p))) ->
  exists g',
    forEach (fun p => body (fst p) (snd p)) ps g = Some g' /\
    Inv g' /\
    shape g' = shape g /\
    forall row col,
      Board.getCell g' row col =
      (fun cell => if decide ((row, col) ∈ ps) then upd cell else cell)
        <$> Board.getCell g row col.
Proof.
  induction ps as [|[r c] ps IH]; intros g HI Hps.
  - exists g. simpl. repeat split; auto.
    intros row col. destruct (decide ((row, col) ∈ [])) as [Hin|_].
    + by apply elem_of_nil in Hin.
    + by destruct (Board.getCell g row col).
  - destruct (Hps (r, c)) as [cell Hcell]; [by left|]. simpl in Hcell.
    destruct (IH (Board.setCell g r c (upd cell))) as (g' & Hrun & HI' & Hsh & Hpt).
    { by eapply Inv_step. }
    { intros p Hp. erewrite getCell_setCell by done.
      case_decide; [done|]. apply Hps. by right. }
    exists g'. simpl. rewrite (body_spec g r c cell) by done. simpl.
    repeat split; auto.
    { by rewrite Hsh, shape_setCell. }
    intros row col. rewrite Hpt. erewrite getCell_setCell by done.
    destruct (decide ((row, col) = (r, c))) as [Heq|Hne].
    + simplify_eq. rewrite Hcell.
      destruct (decide ((r, c) ∈ (r, c) :: ps)) as [_|Hnin];
        [|by destruct Hnin; left].
      destruct (decide ((r, c) ∈ ps)); cbn; by rewrite ?upd_idem.
    + destruct (decide ((row, col) ∈ ps)) as [Hin|Hnin].
      * destruct (decide ((row, col) ∈ (r, c) :: ps)) as [_|Hnin];
          [done|by destruct Hnin; right].
      * destruct (decide ((row, col) ∈ (r, c) :: ps)) as [Hin|_]; [|done].
        apply elem_of_cons in Hin as [?|?]; done.
Qed.
End Pass.

(** * Shapes, bounds and neighbour lists *)

Section Bounds.
Implicit Types (b : Board.t) (g : Board.Grid) (row col : Z).

Lemma getCell_is_Some_shape g row col :
  is_Some (Board.getCell g row col) <->
  0 <= row /\ 0 <= col /\
  exists n, shape g !! Z.to_nat row = Some n /\ (Z.to_nat col < n)%nat.
Proof.
  unfold shape. split.
  - intros [x (Hr & Hc & r & Hgr & Hx)%getCell_Some].
    repeat split; auto. exists (length r).
    rewrite list_lookup_fmap, Hgr. split; [done|]. by eapply lookup_lt_Some.
  - intros (Hr & Hc & n & Hn & Hlt).
    rewrite list_lookup_fmap in Hn.
    destruct (g !! Z.to_nat row) as [r|] eqn:Hgr; [|done].
    simpl in Hn. simplify_eq.
    destruct (lookup_lt_is_Some_2 r (Z.to_nat col) Hlt) as [x Hx].
    exists x. apply getCell_Some. eauto 6.
Qed.

Lemma getCell_is_Some_same_shape g g' row col :
  shape g' = shape g ->
  is_Some (Board.getCell g' row col) <-> is_Some (Board.getCell g row col).
Proof. intros Hs. by rewrite !getCell_is_Some_shape, Hs. Qed.

Lemma wf_getCell_is_Some b row col :
  well_formed b ->
  is_Some (Board.getCell (Board.cells b) row col) <->
  Board.isInBounds b row col = true.
Proof.
  intros [Hs _]. rewrite getCell_is_Some_shape, Hs.
  unfold Board.isInBounds.
  rewrite !andb_true_iff, !Z.leb_le, !Z.ltb_lt. split.
  - intros (Hr & Hc & n & Hn & Hlt).
    apply lookup_replicate in Hn as [-> Hn]. lia.
  - intros [[[Hr Hr'] Hc] Hc']. repeat split; auto.
    exists (Z.to_nat (Board.rowLength b)). split; [|lia].
    apply lookup_replicate_2. lia.
Qed.

Lemma getNeighbours_flat b row col :
  Board.getNeighbours b row col =
  flat_map (fun d => if Board.isInBounds b (row + fst d) (col + snd d)
                     then [(row + fst d, col + snd d)] else [])
           Board.directions.
Proof.
  unfold Board.getNeighbours.
  set (push := fun (arr : list (Z * Z)) (d : Z * Z) =>
                 if Board.isInBounds b (row + fst d) (col + snd d)
                 then arr ++ [(row + fst d, col + snd d)] else arr).
  set (one := fun d : Z * Z =>
                if Board.isInBounds b (row + fst d) (col + snd d)
                then [(row + fst d, col + snd d)] else []).
  assert (forall ds acc, fold_left push ds acc = acc ++ flat_map one ds) as H.
  { induction ds as [|d ds IH]; intros acc; simpl.
    - by rewrite app_nil_r.
    - rewrite IH. unfold push, one.
      destruct (Board.isInBounds b _ _); simpl; [|done].
      by rewrite <- app_assoc. }
  apply H.
Qed.

Lemma elem_of_getNeighbours b row col n :
  n ∈ Board.getNeighbours b row col <->
  exists d, d ∈ Board.directions /\
            n = (row + fst d, col + snd d) /\
            Board.isInBounds b (fst n) (snd n) = true.
Proof.
  rewrite getNeighbours_flat, list_elem_of_In, in_flat_map. split.
  - intros (d & Hd & Hn). exists d. rewrite list_elem_of_In. split; [done|].
    destruct (Board.isInBounds b _ _) eqn:Hb; simpl in Hn; [|done].
    destruct Hn as [<-|[]]. done.
  - intros (d & Hd & -> & Hb). exists d. rewrite <- list_elem_of_In.
    split; [done|]. simpl in Hb. rewrite Hb. by left.
Qed.

Lemma getNeighbours_in_bounds b row col n :
  n ∈ Board.getNeighbours b row col ->
  Board.isInBounds b (fst n) (snd n) = true.
Proof. intros (d & _ & _ & H)%elem_of_getNeighbours. done. Qed.

Lemma countAlive_app g l1 l2 :
  countAlive g (l1 ++ l2) = countAlive g l1 + countAlive g l2.
Proof.
  unfold countAlive. induction l1 as [|n l1 IH]; simpl; [done|].
  rewrite IH. lia.
Qed.

Lemma countAlive_guarded b n (inb : bool) :
  (inb = true -> is_Some (Board.getCell (Board.cells b) (fst n) (snd n))) ->
  countAlive (Board.cells b) (if inb then [n] else []) =
  Reference.indicator (inb && Reference.aliveAt b (fst n) (snd n)).
Proof.
  intros H. unfold countAlive, Reference.aliveAt. destruct inb; simpl; [|done].
  destruct H as [x ->]; [done|]. lia.
Qed.

Lemma countAlive_getNeighbours b row col :
  well_formed b ->
  countAlive (Board.cells b) (Board.getNeighbours b row col) =
  Reference.liveNeighbours b row col.
Proof.
  intros Hwf. rewrite getNeighbours_flat.
  unfold Reference.liveNeighbours, Board.directions, Reference.offsets.
  cbn [flat_map map fold_right fst snd].
  rewrite !countAlive_app.
  rewrite !countAlive_guarded by (intros ?; by apply wf_getCell_is_Some).
  cbn [fst snd]. change (countAlive (Board.cells b) []) with 0. lia.
Qed.
End Bounds.

(** * The two passes of a generation *)


Section TwoPasses.
Variable b : Board.t.
Hypothesis Hwf : well_formed b.

Lemma agrees_getCell g row col cell :
  agrees_but_count b g ->
  Board.getCell g row col = Some cell ->
  exists cell0,
    Board.getCell (Board.cells b) row col = Some cell0 /\
    Cell.alive cell = Cell.alive cell0 /\
    Cell.neighbours cell = Cell.neighbours cell0.
Proof.
  intros [_ Hag] Hc. specialize (Hag row col). rewrite Hc in Hag.
  destruct (Board.getCell (Board.cells b) row col) as [cell0|]; [|done].
  exists cell0. simpl in Hag. injection Hag as Ha Hn _ _. auto.
Qed.

Lemma agrees_countAlive g ns :
  agrees_but_count b g -> countAlive g ns = countAlive (Board.cells b) ns.
Proof.
  intros [_ Hag]. unfold countAlive. f_equal. apply map_ext. intros n.
  specialize (Hag (fst n) (snd n)).
  destruct (Board.getCell g _ _), (Board.getCell (Board.cells b) _ _);
    simpl in Hag; try done.
  injection Hag as -> _ _ _. done.
Qed.

Lemma countCell_counted g row col cell :
  agrees_but_count b g ->
  Board.getCell g row col = Some cell ->
  Board.countCell row col g = Some (Board.setCell g row col (counted b cell)).
Proof.
  intros Hag Hc.
  destruct (agrees_getCell _ _ _ _ Hag Hc) as (cell0 & Hc0 & Ha & Hn).
  rewrite (countCell_spec g row col cell Hc).
  - unfold counted. by rewrite agrees_countAlive.
  - intros n Hin. rewrite Hn in Hin.
    destruct (wf_cell b Hwf _ _ _ Hc0) as (Hnb & _). rewrite Hnb in Hin.
    apply getNeighbours_in_bounds in Hin.
    destruct Hag as [Hs _].
    apply (getCell_is_Some_same_shape _ _ _ _ Hs).
    by apply wf_getCell_is_Some.
Qed.

Lemma agrees_setCell_counted g row col cell :
  agrees_but_count b g ->
  Board.getCell g row col = Some cell ->
  agrees_but_count b (Board.setCell g row col (counted b cell)).
Proof.
  intros [Hs Hag] Hc. split; [by rewrite shape_setCell|].
  intros r c. erewrite getCell_setCell by done.
  case_decide; [|done]. simplify_eq.
  rewrite <- Hag, Hc. done.
Qed.

Lemma counted_idem cell : counted b (counted b cell) = counted b cell.
Proof. done. Qed.

Lemma applyRule_idem cell :
  Board.applyRule (Board.applyRule cell) = Board.applyRule cell.
Proof.
  unfold Board.applyRule. destruct cell as [[] ns n p s]; cbn;
    repeat (case_compare; cbn in *); try done; lia.
Qed.

Lemma applyRule_rule cell :
  Board.applyRule cell =
  Cell.set_alive
    (Reference.rule (Cell.alive cell) (Cell.livingNeighbous cell)) cell.
Proof.
  unfold Board.applyRule, Reference.rule. destruct cell as [[] ns n p s]; cbn;
    repeat (case_compare; cbn in *); try done; lia.
Qed.

Lemma count_pass order :
  (forall p, p ∈ order -> Board.isInBounds b (fst p) (snd p) = true) ->
  exists g1,
    forEach (fun p => Board.countCell (fst p) (snd p)) order (Board.cells b)
      = Some g1 /\
    shape g1 = shape (Board.cells b) /\
    forall row col,
      Board.getCell g1 row col =
      (fun cell => if decide ((row, col) ∈ order) then counted b cell else cell)
        <$> Board.getCell (Board.cells b) row col.
Proof.
  intros Hin.
  destruct (pass_pointwise (agrees_but_count b)
              (fun row col => Board.countCell row col) (counted b)
              countCell_counted agrees_setCell_counted counted_idem
              order (Board.cells b)) as (g1 & Hrun & _ & Hs & Hpt).
  - by split.
  - intros p Hp. apply wf_getCell_is_Some; auto.
  - eauto.
Qed.

Lemma rule_pass order g :
  (forall p, p ∈ order -> is_Some (Board.getCell g (fst p) (snd p))) ->
  exists g2,
    forEach (fun p => Board.ruleCell (fst p) (snd p)) order g = Some g2 /\
    shape g2 = shape g /\
    forall row col,
      Board.getCell g2 row col =
      (fun cell => if decide ((row, col) ∈ order)
                   then Board.applyRule cell else cell)
        <$> Board.getCell g row col.
Proof.
  intros Hin.
  destruct (pass_pointwise (fun _ => True)
              (fun row col => Board.ruleCell row col) Board.applyRule)
    with (ps := order) (g := g) as (g2 & Hrun & _ & Hs & Hpt); eauto.
  - intros g' row col cell _ Hc. unfold Board.ruleCell. by rewrite Hc.
  - apply applyRule_idem.
Qed.
End TwoPasses.

(** * One generation against the reference *)

Lemma forEach_ext {A S : Type} (f f' : A -> S -> option S) l s :
  (forall x s, f x s = f' x s) -> forEach f l s = forEach f' l s.
Proof.
  intros H. revert s. induction l as [|x l IH]; intros s; simpl; [done|].
  rewrite H. destruct (f' x s); simpl; auto.
Qed.

Lemma for_range_nested {S : Type} (body : Z -> Z -> S -> option S) n m s :
  for_range n (fun r => for_range m (fun c => body r c)) s =
  forEach (fun p => body (fst p) (snd p))
    (list_prod (zrange (Z.to_nat n) 0) (zrange (Z.to_nat m) 0)) s.
Proof.
  unfold for_range. rewrite for_loop_forEach, <- forEach_nested.
  apply forEach_ext. intros r s'. apply for_loop_forEach.
Qed.

Lemma tick_row_by_row b :
  Board.tick b = tick_in_order (positions b) (positions b) b.
Proof.
  unfold Board.tick, tick_in_order, Board.updateLivingNeighbours,
    Board.updateAliveStatus, positions.
  rewrite for_range_nested.
  destruct (forEach _ _ (Board.cells b)) as [g1|]; simpl; [|done].
  by rewrite for_range_nested.
Qed.

Lemma shape_imap (f : nat -> nat -> Cell.t -> Cell.t) (g : Board.Grid) :
  shape (imap (fun i r => imap (f i) r) g) = shape g.
Proof.
  unfold shape. apply list_eq. intros i.
  rewrite !list_lookup_fmap, list_lookup_imap.
  destruct (g !! i); simpl; [|done]. by rewrite length_imap.
Qed.

Lemma getCell_imap (f : Z -> Z -> Cell.t -> Cell.t) (g : Board.Grid) row col :
  Board.getCell
    (imap (fun i r => imap (fun j cell => f (Z.of_nat i) (Z.of_nat j) cell) r) g)
    row col
  = f row col <$> Board.getCell g row col.
Proof.
  destruct (Z.ltb_spec row 0) as [Hn|Hr].
  { by rewrite !getCell_negative by auto. }
  destruct (Z.ltb_spec col 0) as [Hn|Hc].
  { by rewrite !getCell_negative by auto. }
  unfold Board.getCell, Board.index.
  destruct (Z.ltb_spec row 0); [lia|].
  rewrite list_lookup_imap.
  destruct (g !! Z.to_nat row) as [r|]; simpl; [|done].
  destruct (Z.ltb_spec col 0); [lia|].
  rewrite list_lookup_imap, !Z2Nat.id by lia. done.
Qed.

Lemma positions_cover b : covers (positions b) b.
Proof. intros row col. apply elem_of_positions. Qed.

Lemma permutation_covers order b : order ≡ₚ positions b -> covers order b.
Proof. intros Hp row col. rewrite Hp. apply elem_of_positions. Qed.

Lemma applyRule_counted b row col cell :
  well_formed b ->
  Board.getCell (Board.cells b) row col = Some cell ->
  counted b cell =
    Cell.set_livingNeighbous (Reference.liveNeighbours b row col) cell /\
  Board.applyRule (counted b cell) = Reference.nextCell b row col cell.
Proof.
  intros Hwf Hc. rewrite applyRule_rule. unfold counted, Reference.nextCell.
  destruct (wf_cell b Hwf _ _ _ Hc) as (Hn & _).
  rewrite Hn, countAlive_getNeighbours by done. split; [done|].
  unfold Cell.set_alive, Cell.set_livingNeighbous. cbn. by rewrite Hn.
Qed.

Lemma getCell_fmap (f : Cell.t -> Cell.t) (g : Board.Grid) row col :
  Board.getCell (mapCells f g) row col = f <$> Board.getCell g row col.
Proof.
  unfold mapCells, Board.getCell, Board.index.
  destruct (Z.ltb_spec row 0); [done|].
  rewrite list_lookup_fmap.
  destruct (g !! Z.to_nat row) as [r|]; simpl; [|done].
  destruct (Z.ltb_spec col 0); [done|].
  by rewrite list_lookup_fmap.
Qed.

Lemma shape_fmap (f : Cell.t -> Cell.t) (g : Board.Grid) :
  shape (mapCells f g) = shape g.
Proof.
  unfold shape, mapCells. apply list_eq. intros i. rewrite !list_lookup_fmap.
  destruct (g !! i); simpl; [|done]. by rewrite length_fmap.
Qed.

Lemma getCell_step b row col :
  Board.getCell (Board.cells (Reference.step b)) row col =
  Reference.nextCell b row col <$> Board.getCell (Board.cells b) row col.
Proof. unfold Reference.step. simpl. apply getCell_imap. Qed.

Lemma getCell_withCounts b row col :
  Board.getCell (withCounts b) row col =
  Cell.set_livingNeighbous (Reference.liveNeighbours b row col)
    <$> Board.getCell (Board.cells b) row col.
Proof.
  unfold withCounts.
  apply (getCell_imap
           (fun r c cell =>
              Cell.set_livingNeighbous (Reference.liveNeighbours b r c) cell)).
Qed.

Lemma shape_withCounts b : shape (withCounts b) = shape (Board.cells b).
Proof. unfold withCounts. apply shape_imap. Qed.

Lemma shape_step b :
  shape (Board.cells (Reference.step b)) = shape (Board.cells b).
Proof. unfold Reference.step. simpl. apply shape_imap. Qed.

(** The counting pass, in any order that reaches every cell, leaves each
    cell with the number of its live neighbours in [b] and nothing else
    changed. *)
Lemma count_pass_all b order :
  well_formed b -> covers order b ->
  forEach (fun p => Board.countCell (fst p) (snd p)) order (Board.cells b)
  = Some (withCounts b).
Proof.
  intros Hwf Hcov.
  destruct (count_pass b Hwf order) as (g1 & Hr1 & Hs1 & Hp1).
  { intros [r c] Hin. by apply Hcov. }
  rewrite Hr1. f_equal. apply grid_ext.
  - by rewrite Hs1, shape_withCounts.
  - intros row col. rewrite Hp1, getCell_withCounts.
    destruct (Board.getCell (Board.cells b) row col) as [cell|] eqn:Hc; [|done].
    assert (Board.isInBounds b row col = true) as Hb.
    { apply wf_getCell_is_Some; [done|]. by rewrite Hc. }
    simpl. rewrite decide_True by by apply Hcov.
    f_equal. by apply applyRule_counted.
Qed.

(** The rule pass, in any order that reaches every cell, applies the two
    [if] statements once to each cell. *)
Lemma rule_pass_all b order g :
  well_formed b -> covers order b -> shape g = shape (Board.cells b) ->
  forEach (fun p => Board.ruleCell (fst p) (snd p)) order g
  = Some (mapCells Board.applyRule g).
Proof.
  intros Hwf Hcov Hs.
  assert (forall row col, is_Some (Board.getCell g row col) ->
                          (row, col) ∈ order) as Hin.
  { intros row col H. apply Hcov. apply wf_getCell_is_Some; [done|].
    by apply (getCell_is_Some_same_shape _ _ _ _ Hs). }
  destruct (rule_pass order g) as (g2 & Hr2 & Hs2 & Hp2).
  { intros [r c] Hp. apply (getCell_is_Some_same_shape _ _ _ _ Hs).
    apply wf_getCell_is_Some; [done|]. by apply Hcov. }
  rewrite Hr2. f_equal. apply grid_ext.
  - by rewrite Hs2, shape_fmap.
  - intros row col. rewrite Hp2, getCell_fmap.
    destruct (Board.getCell g row col) as [cell|] eqn:Hc; [|done].
    simpl. rewrite decide_True; [done|]. apply Hin. by rewrite Hc.
Qed.

Lemma applied_withCounts b :
  well_formed b ->
  mapCells Board.applyRule (withCounts b) = Board.cells (Reference.step b).
Proof.
  intros Hwf. apply grid_ext.
  - by rewrite shape_fmap, shape_withCounts, shape_step.
  - intros row col. rewrite getCell_fmap, getCell_withCounts, getCell_step.
    destruct (Board.getCell (Board.cells b) row col) as [cell|] eqn:Hc; [|done].
    simpl. f_equal.
    destruct (applyRule_counted b row col cell Hwf Hc) as [<- <-]. done.
Qed.

Lemma updateLivingNeighbours_spec b :
  well_formed b ->
  Board.updateLivingNeighbours b = Some (Board.set_cells (withCounts b) b).
Proof.
  intros Hwf. unfold Board.updateLivingNeighbours.
  rewrite for_range_nested. fold (positions b).
  by rewrite count_pass_all by auto using positions_cover.
Qed.

Lemma updateAliveStatus_spec b :
  well_formed b ->
  Board.updateAliveStatus (Board.set_cells (withCounts b) b)
  = Some (Reference.step b).
Proof.
  intros Hwf. unfold Board.updateAliveStatus.
  rewrite for_range_nested. simpl. fold (positions b).
  rewrite (rule_pass_all b) by
    (auto using positions_cover, shape_withCounts).
  simpl. by rewrite applied_withCounts.
Qed.

Lemma tick_in_order_reference b countOrder ruleOrder :
  well_formed b -> covers countOrder b -> covers ruleOrder b ->
  tick_in_order countOrder ruleOrder b = Some (Reference.step b).
Proof.
  intros Hwf H1 H2. unfold tick_in_order.
  rewrite count_pass_all by done. simpl.
  rewrite (rule_pass_all b) by
    (auto using shape_withCounts).
  simpl. by rewrite applied_withCounts.
Qed.

Lemma tick_reference b :
  well_formed b -> Board.tick b = Some (Reference.step b).
Proof.
  intros Hwf. rewrite tick_row_by_row.
  apply tick_in_order_reference; auto using positions_cover.
Qed.

Lemma step_well_formed b : well_formed b -> well_formed (Reference.step b).
Proof.
  intros [Hs Hc]. split.
  - by rewrite shape_step.
  - intros row col cell'. rewrite getCell_step.
    destruct (Board.getCell (Board.cells b) row col) as [cell|] eqn:E; [|done].
    simpl. intros [= <-]. simpl. by apply Hc.
Qed.

(** * What [init] builds *)

Section Init.
Variable b : Board.t.

Lemma advance_0 rng : advance 0 rng = rng.
Proof. by destruct rng. Qed.

Lemma advance_advance n m rng :
  advance n (advance m rng) = advance (n + m) rng.
Proof. unfold advance; simpl. f_equal. lia. Qed.

Lemma init_cell_spec row col g rng r :
  Board.index g row = Some r ->
  Board.init_cell b row col (g, rng) =
  Some (<[Z.to_nat row :=
            r ++ [fst (Cell.new (row, col) (Board.cellSize b)
                         (Board.getNeighbours b row col) rng)]]> g,
        advance 1 rng).
Proof. intros Hr. unfold Board.init_cell. simpl. by rewrite Hr. Qed.

Lemma init_cells_loop row n : forall col g rng r,
  0 <= row ->
  g !! Z.to_nat row = Some r ->
  for_loop n col (Board.init_cell b row) (g, rng) =
  Some (<[Z.to_nat row := r ++ freshRow b row n col rng]> g, advance n rng).
Proof.
  induction n as [|n IH]; intros col g rng r Hrow Hr.
  - simpl. by rewrite app_nil_r, list_insert_id, advance_0.
  - cbn [for_loop]. rewrite (init_cell_spec row col g rng r)
      by (apply index_Some; auto).
    cbn [mbind option_bind].
    rewrite (IH (col + 1) _ (advance 1 rng)
               (r ++ [fst (Cell.new (row, col) (Board.cellSize b)
                             (Board.getNeighbours b row col) rng)])); auto.
    + rewrite list_insert_insert_eq, <- app_assoc, advance_advance.
      do 3 f_equal. lia.
    + apply list_lookup_insert_eq. by eapply lookup_lt_Some.
Qed.

Lemma init_row_spec row g rng :
  0 <= row ->
  length g = Z.to_nat row ->
  Board.init_row b row (g, rng) =
  Some (g ++ [freshRow b row (Z.to_nat (Board.rowLength b)) 0 rng],
        advance (Z.to_nat (Board.rowLength b)) rng).
Proof.
  intros Hrow Hlen. unfold Board.init_row, for_range.
  rewrite (init_cells_loop row _ 0 (g ++ [[]]) rng []); auto.
  2:{ rewrite <- Hlen. by apply list_lookup_middle. }
  rewrite insert_app_r_alt by lia.
  replace (Z.to_nat row - length g)%nat with 0%nat by lia. done.
Qed.

Lemma init_rows_loop n : forall row g rng,
  0 <= row ->
  length g = Z.to_nat row ->
  for_loop n row (Board.init_row b) (g, rng) =
  Some (g ++ freshRows b n row rng,
        advance (n * Z.to_nat (Board.rowLength b)) rng).
Proof.
  induction n as [|n IH]; intros row g rng Hrow Hlen.
  - simpl. by rewrite app_nil_r, advance_0.
  - cbn [for_loop]. rewrite init_row_spec by done.
    cbn [mbind option_bind].
    rewrite IH.
    + rewrite <- app_assoc, advance_advance. simpl. do 3 f_equal. lia.
    + lia.
    + rewrite length_app. simpl. lia.
Qed.

Lemma length_freshRow row n : forall col rng,
  length (freshRow b row n col rng) = n.
Proof. induction n as [|n IH]; intros; simpl; auto. Qed.

Lemma shape_freshRows n : forall row rng,
  shape (freshRows b n row rng) = replicate n (Z.to_nat (Board.rowLength b)).
Proof.
  unfold shape. induction n as [|n IH]; intros; simpl; [done|].
  by rewrite length_freshRow, IH.
Qed.

Lemma lookup_freshRow row n : forall col rng j cell,
  freshRow b row n col rng !! j = Some cell ->
  cell = fst (Cell.new (row, col + Z.of_nat j) (Board.cellSize b)
                (Board.getNeighbours b row (col + Z.of_nat j))
                (advance j rng)).
Proof.
  induction n as [|n IH]; intros col rng j cell H; [done|].
  destruct j as [|j]; simpl in H.
  - simplify_eq. by rewrite Z.add_0_r, advance_0.
  - apply IH in H. rewrite advance_advance in H.
    replace (col + 1 + Z.of_nat j) with (col + Z.of_nat (S j)) in H by lia.
    by replace (j + 1)%nat with (S j) in H by lia.
Qed.

Lemma lookup_freshRows n : forall row rng i r,
  freshRows b n row rng !! i = Some r ->
  r = freshRow b (row + Z.of_nat i) (Z.to_nat (Board.rowLength b)) 0
        (advance (i * Z.to_nat (Board.rowLength b)) rng).
Proof.
  induction n as [|n IH]; intros row rng i r H; [done|].
  destruct i as [|i]; simpl in H.
  - simplify_eq. by rewrite Z.add_0_r, advance_0.
  - apply IH in H. rewrite advance_advance in H.
    replace (row + 1 + Z.of_nat i) with (row + Z.of_nat (S i)) in H by lia.
    by replace (i * Z.to_nat (Board.rowLength b) + Z.to_nat (Board.rowLength b))%nat
      with (S i * Z.to_nat (Board.rowLength b))%nat in H by lia.
Qed.

(** The cell that [init] puts at [(row, col)]: the outcome of the draw made
    for it, no neighbour counted yet. *)
Lemma getCell_freshRows n rng row col cell :
  Board.getCell (freshRows b n 0 rng) row col = Some cell ->
  cell =
  {| Cell.alive :=
       outcome rng (Z.to_nat row * Z.to_nat (Board.rowLength b)
                    + Z.to_nat col + drawsMade rng)%nat;
     Cell.neighbours := Board.getNeighbours b row col;
     Cell.livingNeighbous := 0;
     Cell.position := (row, col);
     Cell.size := Board.cellSize b |}.
Proof.
  intros (Hr & Hc & r & Hgr & Hx)%getCell_Some.
  apply lookup_freshRows in Hgr. subst r.
  apply lookup_freshRow in Hx. subst cell.
  rewrite !Z.add_0_l, !Z2Nat.id by lia. unfold Cell.new. simpl.
  do 2 f_equal. lia.
Qed.

Lemma init_rows rng :
  for_range (Board.columnLength b) (Board.init_row b) ([], rng) =
  Some (freshRows b (Z.to_nat (Board.columnLength b)) 0 rng,
        advance (Z.to_nat (Board.columnLength b) * Z.to_nat (Board.rowLength b))
                rng).
Proof. unfold for_range. by rewrite init_rows_loop. Qed.

Lemma freshRows_well_formed rng :
  well_formed
    (Board.set_cells (freshRows b (Z.to_nat (Board.columnLength b)) 0 rng) b).
Proof.
  split; simpl.
  - apply shape_freshRows.
  - intros row col cell ->%getCell_freshRows. done.
Qed.
End Init.

(** * What [draw] paints *)

Lemma draw_loop b ps : forall ctx0,
  (forall p, p ∈ ps -> is_Some (Board.getCell (Board.cells b) (fst p) (snd p))) ->
  exists style,
    forEach (fun p ctx => cell ← Board.getCell (Board.cells b) (fst p) (snd p);
                          Some (Board.drawCell cell ctx)) ps ctx0 =
    Some {| fillStyle := style;
            drawn := drawn ctx0 ++
              flat_map (fun p =>
                match Board.getCell (Board.cells b) (fst p) (snd p) with
                | Some cell => [fillOf cell]
                | None => []
                end) ps |}.
Proof.
  induction ps as [|p ps IH]; intros ctx0 Hps.
  - exists (fillStyle ctx0). simpl. rewrite app_nil_r. by destruct ctx0.
  - destruct (Hps p) as [cell Hcell]; [by left|].
    destruct (IH (Board.drawCell cell ctx0)) as [style Hrun].
    { intros q Hq. apply Hps. by right. }
    exists style. cbn [forEach flat_map]. rewrite Hcell. cbn [mbind option_bind].
    rewrite Hrun. simpl. by rewrite <- app_assoc.
Qed.

Lemma draw_spec b ctx0 :
  well_formed b ->
  exists style,
    Board.draw b ctx0 =
    Some {| fillStyle := style; drawn := drawn ctx0 ++ drawOps b |}.
Proof.
  intros Hwf. unfold Board.draw, drawOps.
  rewrite (for_range_nested
             (fun row col ctx => cell ← Board.getCell (Board.cells b) row col;
                                 Some (Board.drawCell cell ctx))).
  apply draw_loop. intros [r c] Hin.
  apply wf_getCell_is_Some; [done|]. by apply elem_of_positions.
Qed.

(** [init] never fails: it leaves the cells of its closed form, on the
    canvas one rectangle per cell, and has made one draw per cell. *)
Lemma init_spec b rng0 ctx0 :
  let g := freshRows b (Z.to_nat (Board.columnLength b)) 0 rng0 in
  exists style,
    Board.init b rng0 ctx0 =
    Some (Board.set_cells g b,
          advance (Z.to_nat (Board.columnLength b) * Z.to_nat (Board.rowLength b))
                  rng0,
          {| fillStyle := style;
             drawn := drawn ctx0 ++ drawOps (Board.set_cells g b) |}).
Proof.
  intros g. unfold Board.init. rewrite init_rows. cbn [mbind option_bind].
  destruct (draw_spec (Board.set_cells g b) ctx0) as [style Hd].
  { apply freshRows_well_formed. }
  exists style. fold g. by rewrite Hd.
Qed.

(** * The properties of the grid engine *)

Lemma exampleBoard_well_formed rows cols draws :
  well_formed (exampleBoard rows cols draws).
Proof. apply freshRows_well_formed. Qed.

Lemma reachable_well_formed b : reachable b -> well_formed b.
Proof.
  induction 1 as [b0 rng0 ctx0 b rng1 ctx1 Hinit|b b' _ IH Htick].
  - destruct (init_spec b0 rng0 ctx0) as [style Hs].
    rewrite Hs in Hinit. injection Hinit as <- _ _.
    apply freshRows_well_formed.
  - rewrite tick_reference in Htick by done. injection Htick as <-.
    by apply step_well_formed.
Qed.

(** C1. After one generation a cell that was alive with 2 or 3 live
    neighbours is alive, a cell that was alive with fewer than 2 or more than
    3 is dead, a cell that was dead with exactly 3 is alive, and every other
    dead cell is dead; the neighbours are counted in the board before the
    generation. *)
Theorem transition_rule b :
  well_formed b ->
  exists b',
    Board.tick b = Some b' /\
    forall row col cell,
      Board.getCell (Board.cells b) row col = Some cell ->
      exists cell',
        Board.getCell (Board.cells b') row col = Some cell' /\
        let n := Reference.liveNeighbours b row col in
        (Cell.alive cell = true -> n = 2 \/ n = 3 -> Cell.alive cell' = true) /\
        (Cell.alive cell = true -> n < 2 \/ n > 3 -> Cell.alive cell' = false) /\
        (Cell.alive cell = false -> n = 3 -> Cell.alive cell' = true) /\
        (Cell.alive cell = false -> n <> 3 -> Cell.alive cell' = false).
Proof.
  intros Hwf. exists (Reference.step b). split; [by apply tick_reference|].
  intros row col cell Hc. exists (Reference.nextCell b row col cell).
  rewrite getCell_step, Hc. split; [done|]. simpl.
  unfold Reference.rule.
  repeat split; intros -> Hn;
    repeat (case_compare; cbn in *); try done; lia.
Qed.

Lemma transition_rule_witness :
  let b := exampleBoard 3 3 (drawsOf [1; 4; 7]%nat) in
  well_formed b /\
  exists b',
    Board.tick b = Some b' /\
    forall row col cell,
      Board.getCell (Board.cells b) row col = Some cell ->
      exists cell',
        Board.getCell (Board.cells b') row col = Some cell' /\
        let n := Reference.liveNeighbours b row col in
        (Cell.alive cell = true -> n = 2 \/ n = 3 -> Cell.alive cell' = true) /\
        (Cell.alive cell = true -> n < 2 \/ n > 3 -> Cell.alive cell' = false) /\
        (Cell.alive cell = false -> n = 3 -> Cell.alive cell' = true) /\
        (Cell.alive cell = false -> n <> 3 -> Cell.alive cell' = false).
Proof.
  intros b.
  assert (well_formed b) as Hwf by apply exampleBoard_well_formed.
  split; [exact Hwf|]. exact (transition_rule b Hwf).
Defined.

(** C2. One tick applies the rule to all cells at once: the counting pass
    leaves every alive flag as it was and gives each cell the number of its
    live neighbours in the previous generation, the rule pass then yields the
    reference generation, and the same holds whatever the order in which
    either pass visits the cells. *)
Theorem tick_is_simultaneous b countOrder ruleOrder :
  well_formed b ->
  countOrder ≡ₚ positions b ->
  ruleOrder ≡ₚ positions b ->
  Board.updateLivingNeighbours b = Some (Board.set_cells (withCounts b) b) /\
  (forall row col,
     Board.getCell (withCounts b) row col =
     Cell.set_livingNeighbous (Reference.liveNeighbours b row col)
       <$> Board.getCell (Board.cells b) row col) /\
  Board.updateAliveStatus (Board.set_cells (withCounts b) b)
    = Some (Reference.step b) /\
  Board.tick b = Some (Reference.step b) /\
  tick_in_order countOrder ruleOrder b = Some (Reference.step b).
Proof.
  intros Hwf H1 H2. repeat split.
  - by apply updateLivingNeighbours_spec.
  - apply getCell_withCounts.
  - by apply updateAliveStatus_spec.
  - by apply tick_reference.
  - apply tick_in_order_reference; auto using permutation_covers.
Qed.

Lemma tick_is_simultaneous_witness :
  let b := exampleBoard 3 4 (drawsOf [1; 5; 6; 9]%nat) in
  (well_formed b /\
   rev (positions b) ≡ₚ positions b /\
   positions b ≡ₚ positions b) /\
  tick_in_order (rev (positions b)) (positions b) b = Some (Reference.step b).
Proof.
  intros b.
  assert (well_formed b) as Hwf by apply exampleBoard_well_formed.
  assert (rev (positions b) ≡ₚ positions b) as H1
    by (symmetry; apply Permutation_rev).
  assert (positions b ≡ₚ positions b) as H2 by reflexivity.
  split; [auto|].
  apply (tick_is_simultaneous b (rev (positions b)) (positions b) Hwf H1 H2).
Defined.

(** The 8 directions of the script are the 8 adjacent places. *)
Lemma adjacent_directions p n :
  adjacent p n <->
  exists d, d ∈ Board.directions /\ n = (fst p + fst d, snd p + snd d).
Proof.
  destruct p as [pr pc], n as [nr nc]. unfold adjacent. simpl. split.
  - intros H. exists (nr - pr, nc - pc). simpl. split.
    + assert (nr - pr = -1 \/ nr - pr = 0 \/ nr - pr = 1) as Hr by lia.
      assert (nc - pc = -1 \/ nc - pc = 0 \/ nc - pc = 1) as Hc by lia.
      unfold Board.directions. rewrite !elem_of_cons.
      destruct Hr as [Hr|[Hr|Hr]], Hc as [Hc|[Hc|Hc]]; rewrite Hr, Hc;
        try (exfalso; lia); tauto.
    + f_equal; lia.
  - intros ([dr dc] & Hd & Heq). simpl in Heq. injection Heq as -> ->.
    unfold Board.directions in Hd. rewrite !elem_of_cons, elem_of_nil in Hd.
    destruct Hd as [Hd|[Hd|[Hd|[Hd|[Hd|[Hd|[Hd|[Hd|[]]]]]]]]];
      injection Hd as -> ->; lia.
Qed.

Lemma NoDup_directions : NoDup Board.directions.
Proof. apply (bool_decide_unpack _). by vm_compute. Qed.

Lemma NoDup_guarded {A B : Type} (P : A -> bool) (f : A -> B) l :
  (forall x y, f x = f y -> x = y) ->
  NoDup l ->
  NoDup (flat_map (fun d => if P d then [f d] else []) l).
Proof.
  intros Hinj. induction 1 as [|x l Hx Hl IH]; simpl; [constructor|].
  destruct (P x); simpl; [|done]. constructor; [|done].
  rewrite list_elem_of_In, in_flat_map. intros (y & Hy & Hin).
  destruct (P y); simpl in Hin; [|done]. destruct Hin as [Heq|[]].
  apply Hinj in Heq. subst y. by apply Hx, list_elem_of_In.
Qed.

Lemma NoDup_getNeighbours b row col : NoDup (Board.getNeighbours b row col).
Proof.
  rewrite getNeighbours_flat.
  apply (NoDup_guarded
           (fun d => Board.isInBounds b (row + fst d) (col + snd d))
           (fun d => (row + fst d, col + snd d))).
  - intros [x1 x2] [y1 y2] [= H1 H2]. f_equal; lia.
  - apply NoDup_directions.
Qed.

Lemma isInBounds_bounds b row col :
  Board.isInBounds b row col = true <->
  0 <= row < Board.columnLength b /\ 0 <= col < Board.rowLength b.
Proof.
  unfold Board.isInBounds.
  rewrite !andb_true_iff, !Z.leb_le, !Z.ltb_lt. lia.
Qed.

(** C3. The neighbour list of every cell is exactly, and without
    repetition, the adjacent places whose row lies in
    [0 .. columnLength) and whose column lies in [0 .. rowLength), which are
    exactly the adjacent places at which the array holds a cell; so every
    access [cells[n[0]][n[1]]] of the counting pass finds a cell, and the
    pass never fails. *)
Theorem neighbour_lists_in_bounds b :
  reachable b ->
  (forall row col cell,
     Board.getCell (Board.cells b) row col = Some cell ->
     NoDup (Cell.neighbours cell) /\
     (forall n, n ∈ Cell.neighbours cell <->
                adjacent (row, col) n /\
                0 <= fst n < Board.columnLength b /\
                0 <= snd n < Board.rowLength b) /\
     (forall n, n ∈ Cell.neighbours cell <->
                adjacent (row, col) n /\
                is_Some (Board.getCell (Board.cells b) (fst n) (snd n))) /\
     is_Some (Board.countCell row col (Board.cells b))) /\
  is_Some (Board.updateLivingNeighbours b).
Proof.
  intros Hwf%reachable_well_formed. split.
  - intros row col cell Hc.
    destruct (wf_cell b Hwf _ _ _ Hc) as (Hn & _). rewrite Hn.
    assert (forall n, n ∈ Board.getNeighbours b row col <->
              adjacent (row, col) n /\
              Board.isInBounds b (fst n) (snd n) = true) as Hiff.
    { intros n. rewrite elem_of_getNeighbours, adjacent_directions. simpl.
      split.
      - intros (d & Hd & -> & Hb). eauto.
      - intros [(d & Hd & ->) Hb]. eauto. }
    split; [apply NoDup_getNeighbours|].
    split; [intros n; by rewrite Hiff, isInBounds_bounds|].
    split; [intros n; by rewrite Hiff, (wf_getCell_is_Some b _ _ Hwf)|].
    rewrite (countCell_spec _ _ _ cell); [done|done|].
    rewrite Hn. intros n [_ Hb]%Hiff. by apply wf_getCell_is_Some.
  - by rewrite updateLivingNeighbours_spec.
Qed.

Lemma all_dead_liveNeighbours b row col :
  all_dead b -> Reference.liveNeighbours b row col = 0.
Proof.
  intros Hd.
  assert (forall r c, Reference.aliveAt b r c = false) as Ha.
  { intros r c. unfold Reference.aliveAt.
    destruct (Board.getCell (Board.cells b) r c) eqn:E; [|done]. by eapply Hd. }
  unfold Reference.liveNeighbours, Reference.offsets.
  cbn [map fold_right]. rewrite !Ha, !andb_false_r. done.
Qed.

(** C4. A generation of a board in which every cell is dead leaves every
    cell dead. *)
Theorem all_dead_stays_dead b :
  well_formed b -> all_dead b ->
  exists b', Board.tick b = Some b' /\ all_dead b'.
Proof.
  intros Hwf Hd. exists (Reference.step b). split; [by apply tick_reference|].
  intros row col cell'. rewrite getCell_step.
  destruct (Board.getCell (Board.cells b) row col) as [cell|] eqn:Hc; [|done].
  simpl. intros [= <-]. simpl.
  by rewrite (Hd _ _ _ Hc), all_dead_liveNeighbours.
Qed.

(** * The block is a still life *)

Lemma blockNeighbours_inside top left row col :
  inBlock top left row col = true -> blockNeighbours top left row col = 3.
Proof.
  unfold blockNeighbours, inBlock, Reference.offsets, Reference.indicator.
  cbn [map fold_right fst snd]. intros H.
  repeat (case_compare; cbn in *; try lia; try done).
Qed.

Lemma blockNeighbours_outside top left row col :
  inBlock top left row col = false -> blockNeighbours top left row col <> 3.
Proof.
  unfold blockNeighbours, inBlock, Reference.offsets, Reference.indicator.
  cbn [map fold_right fst snd]. intros H.
  repeat (case_compare; cbn in *; try lia; try done).
Qed.

Section Block.
Variables (b : Board.t) (top left : Z).
Hypothesis Hwf : well_formed b.
Hypothesis Htop : 0 < top /\ top + 2 < Board.columnLength b.
Hypothesis Hleft : 0 < left /\ left + 2 < Board.rowLength b.
Hypothesis Hblock : only_block_alive top left b.

Lemma block_in_bounds row col :
  inBlock top left row col = true -> Board.isInBounds b row col = true.
Proof.
  unfold inBlock, Board.isInBounds.
  rewrite !andb_true_iff, !Z.leb_le, !Z.ltb_lt. lia.
Qed.

Lemma block_aliveAt row col :
  Board.isInBounds b row col && Reference.aliveAt b row col =
  inBlock top left row col.
Proof.
  unfold Reference.aliveAt.
  destruct (Board.getCell (Board.cells b) row col) as [cell|] eqn:Hc.
  - rewrite (Hblock _ _ _ Hc).
    assert (Board.isInBounds b row col = true) as ->; [|done].
    apply wf_getCell_is_Some; [done|]. by rewrite Hc.
  - rewrite andb_false_r.
    destruct (inBlock top left row col) eqn:Hin; [|done].
    apply block_in_bounds, wf_getCell_is_Some in Hin; [|done].
    rewrite Hc in Hin. by destruct Hin.
Qed.

Lemma block_liveNeighbours row col :
  Reference.liveNeighbours b row col = blockNeighbours top left row col.
Proof.
  unfold Reference.liveNeighbours, blockNeighbours. f_equal.
  apply map_ext. intros d. by rewrite block_aliveAt.
Qed.

Lemma block_nextCell row col cell :
  Board.getCell (Board.cells b) row col = Some cell ->
  Reference.nextCell b row col cell =
  Cell.set_livingNeighbous (blockNeighbours top left row col) cell.
Proof.
  intros Hc. unfold Reference.nextCell, Cell.set_livingNeighbous.
  rewrite block_liveNeighbours, (Hblock _ _ _ Hc). f_equal.
  unfold Reference.rule.
  destruct (inBlock top left row col) eqn:Hin.
  - by rewrite blockNeighbours_inside.
  - apply blockNeighbours_outside in Hin. by apply Z.eqb_neq.
Qed.

Lemma block_step_generation row col :
  generationOf <$> Board.getCell (Board.cells (Reference.step b)) row col =
  generationOf <$> Board.getCell (Board.cells b) row col.
Proof.
  rewrite getCell_step.
  destruct (Board.getCell (Board.cells b) row col) as [cell|] eqn:Hc; [|done].
  simpl. by rewrite (block_nextCell _ _ _ Hc).
Qed.

Lemma block_step_only_block : only_block_alive top left (Reference.step b).
Proof.
  intros row col cell'. rewrite getCell_step.
  destruct (Board.getCell (Board.cells b) row col) as [cell|] eqn:Hc; [|done].
  simpl. rewrite (block_nextCell _ _ _ Hc). intros [= <-]. simpl.
  by eapply Hblock.
Qed.

(** With the counts of the current generation in place the step changes
    nothing at all. *)
Lemma block_step_fixed :
  (forall row col cell,
     Board.getCell (Board.cells b) row col = Some cell ->
     Cell.livingNeighbous cell = Reference.liveNeighbours b row col) ->
  Reference.step b = b.
Proof.
  intros Hcount.
  assert (Board.cells (Reference.step b) = Board.cells b) as Hcells.
  { apply grid_ext; [apply shape_step|]. intros row col. rewrite getCell_step.
    destruct (Board.getCell (Board.cells b) row col) as [cell|] eqn:Hc; [|done].
    simpl. f_equal. rewrite (block_nextCell _ _ _ Hc).
    rewrite <- block_liveNeighbours, <- (Hcount _ _ _ Hc).
    by destruct cell. }
  unfold Reference.step in *. simpl in Hcells. rewrite Hcells.
  by destruct b.
Qed.
End Block.

Lemma generation_frame (o1 o2 : option Cell.t) :
  generationOf <$> o1 = generationOf <$> o2 -> frameOf <$> o1 = frameOf <$> o2.
Proof.
  destruct o1 as [c1|], o2 as [c2|]; simpl; intros H; try done.
  f_equal. change (snd (generationOf c1) = snd (generationOf c2)). congruence.
Qed.

(** C5. A board whose only live cells form a 2 x 2 block away from the
    boundary is left unchanged by a generation: the step returns a board with
    the same dimensions in which every cell has the alive flag, position,
    size and neighbour list it had (only the transient neighbour counts are
    brought up to date), that board is a fixed point of the step, and so is
    the board itself when its counts are those of its own generation. *)
Theorem block_is_still_life b top left :
  well_formed b ->
  0 < top /\ top + 2 < Board.columnLength b ->
  0 < left /\ left + 2 < Board.rowLength b ->
  only_block_alive top left b ->
  exists b',
    Board.tick b = Some b' /\
    same_frame b b' /\
    (forall row col,
       generationOf <$> Board.getCell (Board.cells b') row col =
       generationOf <$> Board.getCell (Board.cells b) row col) /\
    Board.tick b' = Some b' /\
    ((forall row col cell,
        Board.getCell (Board.cells b) row col = Some cell ->
        Cell.livingNeighbous cell = Reference.liveNeighbours b row col) ->
     b' = b).
Proof.
  intros Hwf Htop Hleft Hblock.
  assert (forall row col,
            generationOf <$> Board.getCell (Board.cells (Reference.step b)) row col =
            generationOf <$> Board.getCell (Board.cells b) row col) as Hgen
    by (intros; by eapply block_step_generation).
  exists (Reference.step b). repeat split; try done.
  - by apply tick_reference.
  - apply shape_step.
  - intros row col. apply generation_frame, Hgen.
  - assert (well_formed (Reference.step b)) as Hwf' by by apply step_well_formed.
    rewrite tick_reference by done. f_equal.
    apply (block_step_fixed (Reference.step b) top left); auto.
    + by apply block_step_only_block.
    + intros row col cell'. rewrite getCell_step.
      destruct (Board.getCell (Board.cells b) row col) as [cell|] eqn:Hc; [|done].
      simpl. intros [= <-]. simpl.
      rewrite (block_liveNeighbours b top left),
              (block_liveNeighbours (Reference.step b) top left);
        auto using block_step_only_block.
  - by apply (block_step_fixed b top left).
Qed.

(** * What a generation leaves alone *)

Lemma same_frame_refl b : same_frame b b.
Proof. by repeat split. Qed.

Lemma same_frame_trans b1 b2 b3 :
  same_frame b1 b2 -> same_frame b2 b3 -> same_frame b1 b3.
Proof.
  intros (? & ? & ? & ? & Hc1) (? & ? & ? & ? & Hc2).
  repeat split; try congruence; intros row col; by rewrite Hc2, Hc1.
Qed.

Lemma same_frame_withCounts b : same_frame b (Board.set_cells (withCounts b) b).
Proof.
  repeat split; simpl; [apply shape_withCounts|].
  intros row col. rewrite getCell_withCounts.
  by destruct (Board.getCell (Board.cells b) row col).
Qed.

Lemma same_frame_step b : same_frame b (Reference.step b).
Proof.
  repeat split; [apply shape_step|].
  intros row col. rewrite getCell_step.
  by destruct (Board.getCell (Board.cells b) row col).
Qed.

Lemma generations_frame n : forall b,
  well_formed b -> exists bn, generations n b = Some bn /\ same_frame b bn.
Proof.
  induction n as [|n IH]; intros b Hwf; simpl.
  - exists b. split; [done|apply same_frame_refl].
  - rewrite tick_reference by done. simpl.
    destruct (IH (Reference.step b)) as (bn & Hrun & Hfr);
      [by apply step_well_formed|].
    exists bn. split; [done|].
    eapply same_frame_trans; [apply same_frame_step|done].
Qed.

(** C7. Counting the neighbours and then updating the alive flags changes
    neither the dimensions of the board nor the position, size or neighbour
    list of any cell, after each of the two passes and after any number of
    generations. *)
Theorem step_preserves_frame b :
  well_formed b ->
  (exists b1 b2,
     Board.updateLivingNeighbours b = Some b1 /\ same_frame b b1 /\
     Board.updateAliveStatus b1 = Some b2 /\ same_frame b b2 /\
     Board.tick b = Some b2) /\
  (forall n, exists bn, generations n b = Some bn /\ same_frame b bn).
Proof.
  intros Hwf. split.
  - exists (Board.set_cells (withCounts b) b), (Reference.step b).
    refine (conj _ (conj _ (conj _ (conj _ _)))).
    + by apply updateLivingNeighbours_spec.
    + apply same_frame_withCounts.
    + by apply updateAliveStatus_spec.
    + apply same_frame_step.
    + by apply tick_reference.
  - intros n. by apply generations_frame.
Qed.

Lemma step_preserves_frame_witness :
  let b := exampleBoard 3 4 (drawsOf [1; 5; 6; 9]%nat) in
  well_formed b /\
  (exists b1 b2,
     Board.updateLivingNeighbours b = Some b1 /\ same_frame b b1 /\
     Board.updateAliveStatus b1 = Some b2 /\ same_frame b b2 /\
     Board.tick b = Some b2) /\
  (forall n, exists bn, generations n b = Some bn /\ same_frame b bn).
Proof.
  intros b.
  assert (well_formed b) as Hwf by apply exampleBoard_well_formed.
  split; [exact Hwf|]. exact (step_preserves_frame b Hwf).
Defined.

(** * Examples on small boards *)

Lemma exampleBoard_alive rows cols draws row col cell :
  Board.getCell (Board.cells (exampleBoard rows cols draws)) row col = Some cell ->
  Cell.alive cell = draws (Z.to_nat row * Z.to_nat cols + Z.to_nat col)%nat.
Proof.
  unfold exampleBoard. simpl. intros ->%getCell_freshRows. simpl.
  f_equal. lia.
Qed.

Lemma exampleBoard_in_bounds rows cols draws row col cell :
  Board.getCell (Board.cells (exampleBoard rows cols draws)) row col = Some cell ->
  0 <= row < rows /\ 0 <= col < cols.
Proof.
  intros Hc.
  assert (Board.isInBounds (exampleBoard rows cols draws) row col = true) as Hb.
  { apply wf_getCell_is_Some; [apply exampleBoard_well_formed|]. by rewrite Hc. }
  unfold Board.isInBounds in Hb. simpl in Hb.
  rewrite !andb_true_iff, !Z.leb_le, !Z.ltb_lt in Hb. lia.
Qed.

Lemma neighbour_lists_in_bounds_witness :
  let b := exampleBoard 3 3 (drawsOf [1; 4; 7]%nat) in
  reachable b /\
  (forall row col cell,
     Board.getCell (Board.cells b) row col = Some cell ->
     NoDup (Cell.neighbours cell) /\
     (forall n, n ∈ Cell.neighbours cell <->
                adjacent (row, col) n /\
                0 <= fst n < Board.columnLength b /\
                0 <= snd n < Board.rowLength b) /\
     (forall n, n ∈ Cell.neighbours cell <->
                adjacent (row, col) n /\
                is_Some (Board.getCell (Board.cells b) (fst n) (snd n))) /\
     is_Some (Board.countCell row col (Board.cells b))) /\
  is_Some (Board.updateLivingNeighbours b).
Proof.
  intros b.
  assert (reachable b) as Hr.
  { apply (reach_init
             {| Board.rowLength := 3; Board.columnLength := 3;
                Board.cells := []; Board.cellSize := 8 |}
             {| outcome := drawsOf [1; 4; 7]%nat; drawsMade := 0 |}
             {| fillStyle := Hsla 0 0 0 100; drawn := [] |}
             b
             {| outcome := drawsOf [1; 4; 7]%nat; drawsMade := 9 |}
             {| fillStyle := Hsla 240 30 20 100;
                drawn := drawOps b |}).
    vm_compute. reflexivity. }
  split; [exact Hr|]. exact (neighbour_lists_in_bounds b Hr).
Defined.

(** The corner cell of a board has the three neighbours inside it. *)
Example corner_neighbours :
  Cell.neighbours
    <$> Board.getCell (Board.cells (exampleBoard 3 3 (drawsOf []))) 0 0
  = Some [(0, 1); (1, 1); (1, 0)].
Proof. reflexivity. Qed.

(** The cell in the middle has all eight of them. *)
Example centre_neighbours :
  Cell.neighbours
    <$> Board.getCell (Board.cells (exampleBoard 3 3 (drawsOf []))) 1 1
  = Some [(0, 1); (0, 2); (1, 2); (2, 2); (2, 1); (2, 0); (1, 0); (0, 0)].
Proof. reflexivity. Qed.

Lemma all_dead_stays_dead_witness :
  let b := exampleBoard 3 3 (drawsOf []) in
  (well_formed b /\ all_dead b) /\
  exists b', Board.tick b = Some b' /\ all_dead b'.
Proof.
  intros b.
  assert (well_formed b) as Hwf by apply exampleBoard_well_formed.
  assert (all_dead b) as Hd.
  { intros row col cell Hc. by rewrite (exampleBoard_alive _ _ _ _ _ _ Hc). }
  split; [auto|]. exact (all_dead_stays_dead b Hwf Hd).
Defined.

Lemma block_board_only_block :
  only_block_alive 1 1 (exampleBoard 4 4 (drawsOf [5; 6; 9; 10]%nat)).
Proof.
  intros row col cell Hc.
  rewrite (exampleBoard_alive _ _ _ _ _ _ Hc).
  apply exampleBoard_in_bounds in Hc.
  assert (row = 0 \/ row = 1 \/ row = 2 \/ row = 3) as Hr by lia.
  assert (col = 0 \/ col = 1 \/ col = 2 \/ col = 3) as Hcol by lia.
  destruct Hr as [->|[->|[->| ->]]], Hcol as [->|[->|[->| ->]]];
    by vm_compute.
Qed.

Lemma block_is_still_life_witness :
  let b := exampleBoard 4 4 (drawsOf [5; 6; 9; 10]%nat) in
  (well_formed b /\ (0 < 1 /\ 1 + 2 < Board.columnLength b) /\
   (0 < 1 /\ 1 + 2 < Board.rowLength b) /\ only_block_alive 1 1 b) /\
  exists b',
    Board.tick b = Some b' /\
    same_frame b b' /\
    (forall row col,
       generationOf <$> Board.getCell (Board.cells b') row col =
       generationOf <$> Board.getCell (Board.cells b) row col) /\
    Board.tick b' = Some b' /\
    ((forall row col cell,
        Board.getCell (Board.cells b) row col = Some cell ->
        Cell.livingNeighbous cell = Reference.liveNeighbours b row col) ->
     b' = b).
Proof.
  intros b.
  assert (well_formed b) as Hwf by apply exampleBoard_well_formed.
  assert (0 < 1 /\ 1 + 2 < Board.columnLength b) as Ht by (simpl; lia).
  assert (0 < 1 /\ 1 + 2 < Board.rowLength b) as Hl by (simpl; lia).
  assert (only_block_alive 1 1 b) as Hb by apply block_board_only_block.
  split; [auto|]. exact (block_is_still_life b 1 1 Hwf Ht Hl Hb).
Defined.

(** A blinker turns by a quarter in one generation, and the block stays. *)
Example blinker_turns :
  (fun b => map (map Cell.alive) (Board.cells b))
    <$> Board.tick (exampleBoard 3 3 (drawsOf [1; 4; 7]%nat))
  = Some [[false; false; false]; [true; true; true]; [false; false; false]].
Proof. reflexivity. Qed.

Example block_stays :
  (fun b => map (map Cell.alive) (Board.cells b))
    <$> Board.tick (exampleBoard 4 4 (drawsOf [5; 6; 9; 10]%nat))
  = Some [[false; false; false; false]; [false; true; true; false];
          [false; true; true; false]; [false; false; false; false]].
Proof. reflexivity. Qed.

(** * The animation controller *)

Section Controller.
Import AnimationController.

Lemma new_spec fps0 p :
  let b0 := Board.new cellsPerRow in
  let g := freshRows b0 (Z.to_nat (Board.columnLength b0)) 0 (rng p) in
  exists style,
    new fps0 p =
    Some ({| fps := fps0; board := Board.set_cells g b0;
             isPlaying := false; tref := 0 |},
          set_ctx {| fillStyle := style;
                     drawn := drawn (ctx p) ++ drawOps (Board.set_cells g b0) |}
            (set_rng (advance (Z.to_nat (Board.columnLength b0)
                               * Z.to_nat (Board.rowLength b0)) (rng p)) p)).
Proof.
  intros b0 g. unfold new.
  destruct (init_spec b0 (rng p) (ctx p)) as [style Hs].
  exists style. fold b0. by rewrite Hs.
Qed.

Lemma animate_spec time a p :
  well_formed (board a) ->
  exists style,
    animate time (a, p) =
    Some (set_board (Reference.step (board a)) a,
          setTimeout (1000 / fps a)
            (set_ctx {| fillStyle := style;
                        drawn := drawn (ctx p)
                                 ++ drawOps (Reference.step (board a)) |}
               (set_lastTime time p))).
Proof.
  intros Hwf. unfold animate.
  rewrite updateLivingNeighbours_spec by done. cbn [mbind option_bind].
  rewrite updateAliveStatus_spec by done. cbn [mbind option_bind].
  destruct (draw_spec (Reference.step (board a)) (ctx (set_lastTime time p)))
    as [style Hd]; [by apply step_well_formed|].
  exists style. by rewrite Hd.
Qed.

Lemma restart_spec a p :
  let b0 := board a in
  let g := freshRows b0 (Z.to_nat (Board.columnLength b0)) 0 (rng p) in
  exists style,
    restart (a, p) =
    Some ({| fps := fps a; board := Board.set_cells g b0;
             isPlaying := false; tref := tref a |},
          set_ctx {| fillStyle := style;
                     drawn := (drawn (ctx p)
                               ++ [ClearRect 0 0 canvasWidth canvasHeight])
                              ++ drawOps (Board.set_cells g b0) |}
            (set_rng (advance (Z.to_nat (Board.columnLength b0)
                               * Z.to_nat (Board.rowLength b0)) (rng p)) p)).
Proof.
  intros b0 g. unfold restart, pause.
  destruct (isPlaying a) eqn:Hp.
  - destruct (init_spec b0 (rng p)
                (clearRect 0 0 canvasWidth canvasHeight (ctx p))) as [style Hs].
    exists style. simpl. fold b0. by rewrite Hs.
  - destruct (init_spec b0 (rng p)
                (clearRect 0 0 canvasWidth canvasHeight (ctx p))) as [style Hs].
    exists style. simpl. fold b0. rewrite Hs. simpl. rewrite <- Hp.
    by destruct a.
Qed.

(** No event changes the dimensions of the board. *)
Lemma updateLivingNeighbours_dims b b' :
  Board.updateLivingNeighbours b = Some b' ->
  Board.rowLength b' = Board.rowLength b /\
  Board.columnLength b' = Board.columnLength b.
Proof.
  unfold Board.updateLivingNeighbours.
  destruct (for_range _ _ _); simpl; [|done]. by intros [= <-].
Qed.

Lemma updateAliveStatus_dims b b' :
  Board.updateAliveStatus b = Some b' ->
  Board.rowLength b' = Board.rowLength b /\
  Board.columnLength b' = Board.columnLength b.
Proof.
  unfold Board.updateAliveStatus.
  destruct (for_range _ _ _); simpl; [|done]. by intros [= <-].
Qed.

Lemma animate_dims time st st' :
  animate time st = Some st' -> dimensions st' = dimensions st.
Proof.
  destruct st as [a p]. unfold animate.
  destruct (Board.updateLivingNeighbours (board a)) as [b1|] eqn:H1;
    simpl; [|done].
  destruct (Board.updateAliveStatus b1) as [b2|] eqn:H2; simpl; [|done].
  destruct (Board.draw b2 _); simpl; [|done]. intros [= <-].
  apply updateLivingNeighbours_dims in H1 as [? ?].
  apply updateAliveStatus_dims in H2 as [? ?].
  unfold dimensions. simpl. congruence.
Qed.

Lemma dispatch_dims ev st st' :
  dispatch ev st = Some st' -> dimensions st' = dimensions st.
Proof.
  destruct st as [a p], ev as [| | |h t|k]; unfold dispatch.
  - intros [= <-]. unfold play. destruct (isPlaying a); done.
  - intros [= <-]. unfold pause. destruct (isPlaying a); done.
  - destruct (restart_spec a p) as [style ->]. by intros [= <-].
  - case_bool_decide; [|done]. intros H1%animate_dims. exact H1.
  - destruct (timers p !! k); [|done]. intros [= <-].
    unfold timerFired. destruct (isPlaying a); done.
Qed.

Lemma run_dims evs : forall st st',
  run evs st = Some st' -> dimensions st' = dimensions st.
Proof.
  unfold run. induction evs as [|ev evs IH]; intros st st'; simpl.
  - by intros [= <-].
  - destruct (dispatch ev st) as [st1|] eqn:H1; simpl; [|done].
    intros H. apply IH in H. apply dispatch_dims in H1. congruence.
Qed.
End Controller.

Section ControllerProperties.
Import AnimationController.

(** The script's controller exists, holds a well-formed board of the
    configured dimensions, is stopped and has nothing pending. *)
Lemma ac_spec draws :
  exists st0,
    ac draws = Some st0 /\
    well_formed (board (fst st0)) /\
    dimensions st0 = (cellsPerRow, canvasHeight / (canvasWidth / cellsPerRow)) /\
    fps (fst st0) = 5 /\
    isPlaying (fst st0) = false /\
    frames (snd st0) = [] /\ timers (snd st0) = [] /\
    nextHandle (snd st0) = 1.
Proof.
  unfold ac. destruct (new_spec 5 (freshPage draws)) as [style ->].
  eexists. split; [reflexivity|]. cbn [fst snd board].
  split; [apply freshRows_well_formed|]. repeat split.
Qed.

Lemma ac_board draws :
  let b0 := Board.new cellsPerRow in
  exists st0,
    ac draws = Some st0 /\
    board (fst st0) =
      Board.set_cells
        (freshRows b0 (Z.to_nat (Board.columnLength b0)) 0
           {| outcome := draws; drawsMade := 0 |}) b0 /\
    fps (fst st0) = 5 /\
    isPlaying (fst st0) = false /\
    frames (snd st0) = [] /\ timers (snd st0) = [] /\
    nextHandle (snd st0) = 1.
Proof.
  intros b0. unfold ac. destruct (new_spec 5 (freshPage draws)) as [style ->].
  eexists. split; [reflexivity|]. cbn [fst snd board]. repeat split.
Qed.

(** What restart gets right.  It never fails and leaves a board of the
    dimensions the controller had from the start, namely those derived from
    the canvas size and the cells-per-row constant; its cells are the ones
    [init] creates, each alive or dead by a draw of its own made during the
    restart and with no neighbour counted; [isPlaying] is false, so that a
    timer of the loop that becomes due requests no further frame, and the
    canvas has been cleared before the new board is painted.  A frame that
    is pending at the restart is another matter, treated further down. *)
Theorem restart_reinitialises draws evs st :
  ac draws ≫= run evs = Some st ->
  exists st',
    restart st = Some st' /\
    dimensions st' = dimensions st /\
    dimensions st' = (cellsPerRow, canvasHeight / (canvasWidth / cellsPerRow)) /\
    isPlaying (fst st') = false /\
    Board.cells (board (fst st')) =
      freshRows (board (fst st))
        (Z.to_nat (Board.columnLength (board (fst st)))) 0 (rng (snd st)) /\
    (forall row col,
       Board.isInBounds (board (fst st')) row col = true ->
       exists cell,
         Board.getCell (Board.cells (board (fst st'))) row col = Some cell /\
         Cell.alive cell =
           outcome (rng (snd st))
             (Z.to_nat row * Z.to_nat (Board.rowLength (board (fst st)))
              + Z.to_nat col + drawsMade (rng (snd st)))%nat /\
         Cell.livingNeighbous cell = 0 /\
         Cell.position cell = (row, col)) /\
    rng (snd st') =
      advance (Z.to_nat (Board.columnLength (board (fst st)))
               * Z.to_nat (Board.rowLength (board (fst st)))) (rng (snd st)) /\
    drawn (ctx (snd st')) =
      (drawn (ctx (snd st)) ++ [ClearRect 0 0 canvasWidth canvasHeight])
      ++ drawOps (board (fst st')) /\
    (forall k st'',
       dispatch (TimerDue k) st' = Some st'' ->
       isPlaying (fst st'') = false /\
       (length (frames (snd st'')) <= length (frames (snd st')))%nat).
Proof.
  intros Hreach.
  assert (dimensions st =
          (cellsPerRow, canvasHeight / (canvasWidth / cellsPerRow))) as Hdim.
  { destruct (ac_spec draws) as (st0 & H0 & _ & Hd & _).
    rewrite H0 in Hreach. cbn [mbind option_bind] in Hreach.
    apply run_dims in Hreach. congruence. }
  destruct st as [a p]. destruct (restart_spec a p) as [style Hr].
  eexists. split; [exact Hr|]. cbn [fst snd board isPlaying ctx rng set_ctx
    set_rng drawn] in *.
  split; [done|]. split; [done|]. split; [done|]. split; [done|].
  split; [|split; [reflexivity|split; [reflexivity|]]].
  2:{ clear Hreach Hdim Hr. intros k st''. unfold dispatch.
      cbn [timers set_ctx set_rng].
      destruct (timers p !! k); [|done]. intros [= <-].
      unfold timerFired. cbn [isPlaying fst snd cancelAnimationFrame
        set_frames set_timers frames tref].
      split; [done|]. apply filter_length_le. }
  clear Hreach Hdim Hr. intros row col Hb.
  set (b' := Board.set_cells _ (board a)) in *.
  assert (well_formed b') as Hwf by apply freshRows_well_formed.
  destruct (proj2 (wf_getCell_is_Some b' row col Hwf) Hb) as [cell Hc].
  exists cell. split; [done|].
  apply getCell_freshRows in Hc. rewrite Hc. cbn [Cell.alive
    Cell.livingNeighbous Cell.position]. repeat split.
Qed.

Lemma restart_reinitialises_witness :
  exists st,
    ac (fun _ => false) ≫= run [PlayClicked] = Some st /\
    exists st',
      restart st = Some st' /\
      dimensions st' = dimensions st /\
      isPlaying (fst st') = false.
Proof.
  destruct (ac_spec (fun _ => false)) as (st0 & H0 & _).
  exists (play st0).
  assert (ac (fun _ => false) ≫= run [PlayClicked] = Some (play st0)) as Hrun
    by (by rewrite H0).
  split; [exact Hrun|].
  destruct (restart_reinitialises _ _ _ Hrun) as (st' & Hr & Hd & _ & Hp & _).
  exists st'. auto.
Defined.

(** C10. Play on a playing controller and pause on a stopped controller
    change nothing: neither the controller nor the pending frames and
    timers; in particular a second play requests no second frame. *)
Theorem play_pause_idempotent st :
  (isPlaying (fst st) = true -> play st = st) /\
  (isPlaying (fst st) = false -> pause st = st) /\
  play (play st) = play st /\
  pause (pause st) = pause st.
Proof.
  destruct st as [a p]. unfold play, pause. simpl. repeat split.
  - by intros ->.
  - by intros ->.
  - destruct (isPlaying a) eqn:E; simpl; by rewrite ?E.
  - destruct (isPlaying a) eqn:E; simpl; by rewrite ?E.
Qed.
End ControllerProperties.

Section PauseAndPlay.
Import AnimationController.

Lemma play_pause_idempotent_witness :
  (isPlaying (fst examplePlaying) = true /\ play examplePlaying = examplePlaying) /\
  (isPlaying (fst exampleStopped) = false /\ pause exampleStopped = exampleStopped).
Proof.
  split; (split; [reflexivity|]).
  - apply (proj1 (play_pause_idempotent examplePlaying)). reflexivity.
  - apply (proj1 (proj2 (play_pause_idempotent exampleStopped))). reflexivity.
Defined.

(** The parts of the driver that work as a two-state machine. *)
Lemma play_starts_loop a p :
  isPlaying a = false ->
  play (a, p) =
  ({| fps := fps a; board := board a; isPlaying := true;
      tref := nextHandle p |},
   snd (requestAnimationFrame p)).
Proof. intros H. unfold play. by rewrite H. Qed.

Lemma pause_stops a p :
  isPlaying a = true -> pause (a, p) = (set_isPlaying false a, p).
Proof. intros H. unfold pause. by rewrite H. Qed.

Lemma timer_requests_next_frame a p :
  isPlaying a = true ->
  timerFired (a, p) = (set_tref (nextHandle p) a, snd (requestAnimationFrame p)).
Proof. intros H. unfold timerFired. by rewrite H. Qed.

Lemma timer_after_pause_requests_nothing a p :
  isPlaying a = false ->
  timerFired (a, p) = (a, cancelAnimationFrame (tref a) p).
Proof. intros H. unfold timerFired. by rewrite H. Qed.

(** One round of the loop while playing: the due frame runs a tick and sets
    the timer; the timer, when due, requests the next frame. *)
Lemma loop_round a p h time :
  well_formed (board a) ->
  isPlaying a = true -> frames p = [h] -> timers p = [] ->
  exists st1 st2,
    dispatch (FrameDue h time) (a, p) = Some st1 /\
    board (fst st1) = Reference.step (board a) /\
    frames (snd st1) = [] /\ timers (snd st1) = [1000 / fps a] /\
    dispatch (TimerDue 0) st1 = Some st2 /\
    isPlaying (fst st2) = true /\
    board (fst st2) = Reference.step (board a) /\
    frames (snd st2) = [nextHandle p] /\ timers (snd st2) = [] /\
    tref (fst st2) = nextHandle p.
Proof.
  intros Hwf Hplay Hfr Htm.
  destruct (animate_spec time a
              (set_frames (List.filter (fun h' => negb (h' =? h)) (frames p)) p))
    as [style Han]; [done|].
  eexists. eexists. split.
  { unfold dispatch. rewrite bool_decide_true; [exact Han|].
    rewrite Hfr. by left. }
  cbn [fst snd board set_board frames timers setTimeout set_timers set_ctx
    set_lastTime set_frames].
  rewrite Hfr, Htm. cbn [List.filter]. rewrite Z.eqb_refl. cbn [negb].
  split; [done|]. split; [done|]. split; [done|]. split.
  { unfold dispatch. cbn [timers setTimeout set_timers set_ctx set_lastTime
      set_frames]. rewrite Htm. cbn [List.app lookup list_lookup].
    unfold timerFired. cbn [set_board isPlaying]. rewrite Hplay. reflexivity. }
  cbn [fst snd requestAnimationFrame set_tref isPlaying board set_board frames
    timers tref set_timers setTimeout set_ctx set_lastTime set_frames delete
    list_delete nextHandle List.app].
  by rewrite Hplay.
Qed.

(** In any state, a frame that is pending when pause is clicked is still
    delivered to [animate], which runs a tick whatever [isPlaying] says. *)
Lemma pending_frame_survives_pause a p h time :
  well_formed (board a) ->
  h ∈ frames p ->
  exists st3,
    isPlaying (fst (pause (a, p))) = false /\
    dispatch (FrameDue h time) (pause (a, p)) = Some st3 /\
    Board.tick (board a) = Some (board (fst st3)) /\
    drawn (ctx (snd st3)) = drawn (ctx p) ++ drawOps (board (fst st3)) /\
    timers (snd st3) = timers p ++ [1000 / fps a].
Proof.
  intros Hwf Hh.
  assert (exists a', pause (a, p) = (a', p) /\ isPlaying a' = false /\
                     board a' = board a /\ fps a' = fps a)
    as (a' & Hpause & Hp' & Hb' & Hf').
  { unfold pause. destruct (isPlaying a) eqn:E; eauto 6. }
  rewrite Hpause.
  destruct (animate_spec time a'
              (set_frames (List.filter (fun h' => negb (h' =? h)) (frames p)) p))
    as [style Han]; [by rewrite Hb'|].
  eexists. split; [exact Hp'|]. split.
  { unfold dispatch. rewrite bool_decide_true by done. exact Han. }
  cbn [fst snd board set_board ctx drawn set_ctx setTimeout set_timers timers
    set_lastTime set_frames].
  rewrite Hb', Hf'. split; [by apply tick_reference|]. done.
Qed.

Lemma frame_after_pause a0 p0 time :
  well_formed (board a0) ->
  fps a0 = 5 -> isPlaying a0 = false ->
  frames p0 = [] -> timers p0 = [] -> nextHandle p0 = 1 ->
  exists st2 st3,
    run [PlayClicked; PauseClicked] (a0, p0) = Some st2 /\
    isPlaying (fst st2) = false /\
    frames (snd st2) = [1] /\
    dispatch (FrameDue 1 time) st2 = Some st3 /\
    Board.tick (board (fst st2)) = Some (board (fst st3)) /\
    board (fst st3) = Reference.step (board a0) /\
    drawn (ctx (snd st3)) =
      drawn (ctx (snd st2)) ++ drawOps (board (fst st3)) /\
    timers (snd st3) = [200] /\
    isPlaying (fst st3) = false /\
    board (fst st2) = board a0.
Proof.
  intros Hwf Hfps Hplay Hfr Htm Hnext.
  set (a2 := {| fps := fps a0; board := board a0; isPlaying := false;
                tref := 1 |}).
  set (p2 := {| ctx := ctx p0; rng := rng p0; lastTime := lastTime p0;
                frames := [1]; timers := []; nextHandle := 2 |}).
  assert (run [PlayClicked; PauseClicked] (a0, p0) = Some (a2, p2)) as Hrun.
  { unfold run. cbn [forEach dispatch mbind option_bind].
    rewrite (play_starts_loop a0 p0 Hplay). unfold pause.
    cbn [isPlaying requestAnimationFrame snd set_isPlaying fps board tref].
    by rewrite Hfr, Htm, Hnext. }
  destruct (animate_spec time a2
              (set_frames (List.filter (fun h => negb (h =? 1)) (frames p2)) p2))
    as [style Han]; [done|].
  exists (a2, p2). eexists.
  split; [done|]. split; [done|]. split; [done|].
  split; [exact Han|]. cbn [fst snd board set_board ctx drawn set_ctx
    setTimeout set_timers timers set_lastTime set_frames a2 p2 fps isPlaying].
  split; [by apply tick_reference|]. split; [done|]. split; [done|].
  by rewrite Hfps.
Qed.

(** C8, where the script departs from it.  Pause only clears the flag: a
    frame that was requested before the pause stays pending, and when it
    becomes due [animate] runs a whole tick (count, rule, redraw) and sets
    a timer, although the controller is stopped.  Here on the script's own
    controller, with play and pause clicked before the first frame. *)
Theorem pause_leaves_requested_frame draws time :
  exists st0 st2 st3,
    ac draws = Some st0 /\
    run [PlayClicked; PauseClicked] st0 = Some st2 /\
    isPlaying (fst st2) = false /\
    frames (snd st2) = [1] /\
    dispatch (FrameDue 1 time) st2 = Some st3 /\
    Board.tick (board (fst st2)) = Some (board (fst st3)) /\
    board (fst st3) = Reference.step (board (fst st0)) /\
    drawn (ctx (snd st3)) =
      drawn (ctx (snd st2)) ++ drawOps (board (fst st3)) /\
    timers (snd st3) = [200] /\
    isPlaying (fst st3) = false /\
    board (fst st2) = board (fst st0).
Proof.
  destruct (ac_spec draws)
    as ([a0 p0] & H0 & Hwf & _ & Hfps & Hplay & Hfr & Htm & Hnext).
  destruct (frame_after_pause a0 p0 time Hwf Hfps Hplay Hfr Htm Hnext)
    as (st2 & st3 & H).
  exists (a0, p0), st2, st3. exact (conj H0 H).
Qed.

Lemma frame_after_restart a0 p0 time :
  fps a0 = 5 -> isPlaying a0 = false ->
  frames p0 = [] -> timers p0 = [] -> nextHandle p0 = 1 ->
  exists st2 st3,
    run [PlayClicked; RestartClicked] (a0, p0) = Some st2 /\
    isPlaying (fst st2) = false /\
    frames (snd st2) = [1] /\
    board (fst st2) =
      Board.set_cells
        (freshRows (board a0) (Z.to_nat (Board.columnLength (board a0))) 0
           (rng p0)) (board a0) /\
    dispatch (FrameDue 1 time) st2 = Some st3 /\
    Board.tick (board (fst st2)) = Some (board (fst st3)) /\
    board (fst st3) = Reference.step (board (fst st2)) /\
    drawn (ctx (snd st3)) =
      drawn (ctx (snd st2)) ++ drawOps (board (fst st3)) /\
    timers (snd st3) = [200] /\
    isPlaying (fst st3) = false.
Proof.
  intros Hfps Hplay Hfr Htm Hnext.
  pose proof (play_starts_loop a0 p0 Hplay) as Hp1.
  set (a1 := {| fps := fps a0; board := board a0; isPlaying := true;
                tref := nextHandle p0 |}) in *.
  set (p1 := snd (requestAnimationFrame p0)) in *.
  destruct (restart_spec a1 p1) as [style1 Hres].
  cbn [board fps tref a1] in Hres.
  set (b2 := Board.set_cells
               (freshRows (board a0) (Z.to_nat (Board.columnLength (board a0)))
                  0 (rng p1)) (board a0)) in *.
  assert (well_formed b2) as Hwf2 by apply freshRows_well_formed.
  set (a2 := {| fps := fps a0; board := b2; isPlaying := false;
                tref := nextHandle p0 |}) in *.
  match type of Hres with _ = Some (_, ?q) => set (p2 := q) in * end.
  assert (frames p2 = [1]) as Hf2.
  { subst p2 p1. cbn [frames set_ctx set_rng requestAnimationFrame snd].
    by rewrite Hfr, Hnext. }
  assert (timers p2 = []) as Ht2.
  { subst p2 p1. cbn [timers set_ctx set_rng requestAnimationFrame snd].
    exact Htm. }
  destruct (animate_spec time a2
              (set_frames (List.filter (fun h => negb (h =? 1)) (frames p2)) p2)
              Hwf2) as [style Han].
  exists (a2, p2). eexists.
  split.
  { unfold run. cbn [forEach].
    change (dispatch PlayClicked (a0, p0)) with (Some (play (a0, p0))).
    rewrite Hp1. cbn [mbind option_bind].
    change (dispatch RestartClicked (a1, p1)) with (restart (a1, p1)).
    rewrite Hres. reflexivity. }
  split; [done|]. split; [exact Hf2|]. split; [done|].
  split.
  { unfold dispatch. rewrite bool_decide_true by (rewrite Hf2; by left).
    exact Han. }
  cbn [fst snd board set_board ctx drawn set_ctx setTimeout set_timers timers
       set_lastTime set_frames a2 fps isPlaying].
  split; [by apply tick_reference|]. split; [done|]. split; [done|].
  by rewrite Ht2, Hfps.
Qed.

(** C6, where the script departs from it.  Restart builds the fresh board,
    clears the canvas and clears the flag ([restart_reinitialises]), but it
    stops the loop no better than pause does: a frame that was requested
    before the restart stays pending, and when it becomes due [animate] runs
    a whole tick on the fresh board, repaints it and sets a timer, although
    the controller is stopped.  Here on the script's own controller, with
    play and restart clicked before the first frame. *)
Theorem restart_leaves_requested_frame draws time :
  exists st0 st2 st3,
    ac draws = Some st0 /\
    run [PlayClicked; RestartClicked] st0 = Some st2 /\
    isPlaying (fst st2) = false /\
    frames (snd st2) = [1] /\
    board (fst st2) =
      Board.set_cells
        (freshRows (board (fst st0))
           (Z.to_nat (Board.columnLength (board (fst st0)))) 0
           (rng (snd st0))) (board (fst st0)) /\
    dispatch (FrameDue 1 time) st2 = Some st3 /\
    Board.tick (board (fst st2)) = Some (board (fst st3)) /\
    board (fst st3) = Reference.step (board (fst st2)) /\
    drawn (ctx (snd st3)) =
      drawn (ctx (snd st2)) ++ drawOps (board (fst st3)) /\
    timers (snd st3) = [200] /\
    isPlaying (fst st3) = false.
Proof.
  destruct (ac_spec draws)
    as ([a0 p0] & H0 & _ & _ & Hfps & Hplay & Hfr & Htm & Hnext).
  destruct (frame_after_restart a0 p0 time Hfps Hplay Hfr Htm Hnext)
    as (st2 & st3 & H).
  exists (a0, p0), st2, st3. exact (conj H0 H).
Qed.

Lemma fresh_aliveAt b0 rng0 row col :
  Reference.aliveAt
    (Board.set_cells
       (freshRows b0 (Z.to_nat (Board.columnLength b0)) 0 rng0) b0) row col =
  Board.isInBounds b0 row col &&
  outcome rng0 (Z.to_nat row * Z.to_nat (Board.rowLength b0)
                + Z.to_nat col + drawsMade rng0)%nat.
Proof.
  set (b := Board.set_cells _ b0).
  assert (well_formed b) as Hwf by apply freshRows_well_formed.
  unfold Reference.aliveAt.
  destruct (Board.getCell (Board.cells b) row col) as [cell|] eqn:Hc.
  - assert (Board.isInBounds b row col = true) as Hb.
    { apply wf_getCell_is_Some; [done|]. by rewrite Hc. }
    change (Board.isInBounds b row col) with (Board.isInBounds b0 row col) in Hb.
    rewrite Hb. apply getCell_freshRows in Hc. by subst cell.
  - destruct (Board.isInBounds b0 row col) eqn:Hb; [|done].
    change (Board.isInBounds b0 row col) with (Board.isInBounds b row col) in Hb.
    apply wf_getCell_is_Some in Hb; [|done]. rewrite Hc in Hb. by destruct Hb.
Qed.

Lemma aliveAt_step b row col :
  well_formed b ->
  Reference.aliveAt (Reference.step b) row col =
  Board.isInBounds b row col &&
  Reference.rule (Reference.aliveAt b row col)
                 (Reference.liveNeighbours b row col).
Proof.
  intros Hwf. unfold Reference.aliveAt at 1 2. rewrite getCell_step.
  destruct (Board.getCell (Board.cells b) row col) as [cell|] eqn:Hc; simpl.
  - assert (Board.isInBounds b row col = true) as ->; [|done].
    apply wf_getCell_is_Some; [done|]. by rewrite Hc.
  - destruct (Board.isInBounds b row col) eqn:Hb; [|done].
    apply wf_getCell_is_Some in Hb; [|done]. rewrite Hc in Hb. by destruct Hb.
Qed.

(** The same defect in a running loop: pause clicked after the timer has
    requested the next frame and before that frame is delivered; the second
    generation is computed after the pause. *)
Lemma pause_in_running_loop draws t1 t2 :
  exists st0 st4 st5,
    ac draws = Some st0 /\
    run [PlayClicked; FrameDue 1 t1; TimerDue 0; PauseClicked] st0 = Some st4 /\
    isPlaying (fst st4) = false /\
    board (fst st4) = Reference.step (board (fst st0)) /\
    dispatch (FrameDue 2 t2) st4 = Some st5 /\
    board (fst st5) = Reference.step (Reference.step (board (fst st0))).
Proof.
  destruct (ac_spec draws)
    as ([a0 p0] & H0 & Hwf & _ & Hfps & Hplay & Hfr & Htm & Hnext).
  cbn [fst snd] in *.
  exists (a0, p0). revert H0. generalize (ac draws). intros o H0.
  pose proof (play_starts_loop a0 p0 Hplay) as Hp1.
  set (a1 := {| fps := fps a0; board := board a0; isPlaying := true;
                tref := nextHandle p0 |}) in *.
  set (p1 := snd (requestAnimationFrame p0)) in *.
  destruct (loop_round a1 p1 1 t1) as ([b1 q1] & [b2 q2] & Hd1 & _ & _ & _ &
    Hd2 & Hpl2 & Hb2 & Hfr2 & _ & _); try done.
  { subst p1. cbn [requestAnimationFrame snd frames]. by rewrite Hfr, Hnext. }
  cbn [fst snd] in *.
  assert (well_formed (board b2)) as Hwf2.
  { rewrite Hb2. by apply step_well_formed. }
  assert (2 ∈ frames q2) as Hin.
  { rewrite Hfr2. subst p1. cbn [requestAnimationFrame snd nextHandle].
    rewrite Hnext. by left. }
  destruct (pending_frame_survives_pause b2 q2 2 t2 Hwf2 Hin)
    as ([b5 q5] & Hp4 & Hd5 & Htick & _).
  exists (pause (b2, q2)), (b5, q5).
  split; [exact H0|]. split.
  { unfold run. cbn [forEach].
    change (dispatch PlayClicked (a0, p0)) with (Some (play (a0, p0))).
    rewrite Hp1.
    cbn [mbind option_bind]. rewrite Hd1. cbn [mbind option_bind].
    rewrite Hd2. cbn [mbind option_bind]. reflexivity. }
  split; [exact Hp4|]. split.
  { unfold pause. rewrite Hpl2. exact Hb2. }
  split; [exact Hd5|].
  rewrite tick_reference in Htick by done. cbn [fst] in *.
  injection Htick as <-. by rewrite Hb2.
Qed.

(** The same run seen on the canvas: with a blinker in the second row of
    the fresh board, the cell above its middle is dead when pause is
    clicked and alive after the frame that was left pending. *)
Lemma paused_blinker_still_turns time :
  exists st0 st2 st3,
    ac (drawsOf [101; 102; 103]%nat) = Some st0 /\
    run [PlayClicked; PauseClicked] st0 = Some st2 /\
    isPlaying (fst st2) = false /\
    dispatch (FrameDue 1 time) st2 = Some st3 /\
    Reference.aliveAt (board (fst st2)) 0 2 = false /\
    Reference.aliveAt (board (fst st3)) 0 2 = true.
Proof.
  destruct (ac_board (drawsOf [101; 102; 103]%nat))
    as ([a0 p0] & H0 & Hb & Hfps & Hplay & Hfr & Htm & Hnext).
  cbn [fst snd] in *.
  assert (well_formed (board a0)) as Hwf.
  { rewrite Hb. apply freshRows_well_formed. }
  destruct (frame_after_pause a0 p0 time Hwf Hfps Hplay Hfr Htm Hnext)
    as ([a2 p2] & [a3 p3] & Hrun & Hp2 & _ & Hfire & _ & Hstep & _ & _ & _ & Hsame).
  exists (a0, p0), (a2, p2), (a3, p3).
  split; [exact H0|]. split; [exact Hrun|]. split; [exact Hp2|].
  split; [exact Hfire|]. clear H0 Hrun Hfire.
  cbn [fst snd] in *. rewrite Hstep, Hsame, aliveAt_step by exact Hwf.
  unfold Reference.liveNeighbours, Reference.offsets.
  cbn [map fold_right fst snd]. rewrite Hb, !fresh_aliveAt.
  change (Board.isInBounds (Board.set_cells ?g ?b)) with (Board.isInBounds b).
  split; by vm_compute.
Qed.
Lemma ac_state draws :
  let b0 := Board.new cellsPerRow in
  exists st0,
    ac draws = Some st0 /\
    board (fst st0) =
      Board.set_cells
        (freshRows b0 (Z.to_nat (Board.columnLength b0)) 0
           {| outcome := draws; drawsMade := 0 |}) b0 /\
    rng (snd st0) =
      advance (Z.to_nat (Board.columnLength b0) * Z.to_nat (Board.rowLength b0))
        {| outcome := draws; drawsMade := 0 |} /\
    fps (fst st0) = 5 /\
    isPlaying (fst st0) = false /\
    frames (snd st0) = [] /\ timers (snd st0) = [] /\
    nextHandle (snd st0) = 1.
Proof.
  intros b0. unfold ac. destruct (new_spec 5 (freshPage draws)) as [style ->].
  eexists. split; [reflexivity|]. cbn [fst snd board rng set_ctx set_rng].
  repeat split.
Qed.

(** The same run seen on the canvas: when the draws of the restart put a
    blinker in the second row of the fresh board, the cell above its middle
    is dead right after the restart and alive after the frame that was left
    pending. *)
Lemma restarted_blinker_still_turns time :
  exists st0 st2 st3,
    ac (drawsOf (map Z.to_nat [10101; 10102; 10103])) = Some st0 /\
    run [PlayClicked; RestartClicked] st0 = Some st2 /\
    isPlaying (fst st2) = false /\
    dispatch (FrameDue 1 time) st2 = Some st3 /\
    Reference.aliveAt (board (fst st2)) 0 2 = false /\
    Reference.aliveAt (board (fst st3)) 0 2 = true.
Proof.
  destruct (ac_state (drawsOf (map Z.to_nat [10101; 10102; 10103])))
    as ([a0 p0] & H0 & Hb & Hrng & Hfps & Hplay & Hfr & Htm & Hnext).
  cbn [fst snd] in *.
  destruct (frame_after_restart a0 p0 time Hfps Hplay Hfr Htm Hnext)
    as ([a2 p2] & [a3 p3] & Hrun & Hp2 & _ & Hb2 & Hfire & _ & Hstep & _).
  exists (a0, p0), (a2, p2), (a3, p3).
  split; [exact H0|]. split; [exact Hrun|]. split; [exact Hp2|].
  split; [exact Hfire|]. clear H0 Hrun Hfire.
  cbn [fst snd] in *.
  assert (well_formed (board a2)) as Hwf2.
  { rewrite Hb2. apply freshRows_well_formed. }
  rewrite Hstep, aliveAt_step by exact Hwf2.
  unfold Reference.liveNeighbours, Reference.offsets.
  cbn [map fold_right fst snd]. rewrite Hb2, !fresh_aliveAt.
  change (Board.isInBounds (Board.set_cells ?g ?b)) with (Board.isInBounds b).
  rewrite Hrng, Hb.
  change (Board.isInBounds (Board.set_cells ?g ?b)) with (Board.isInBounds b).
  change (Board.rowLength (Board.set_cells ?g ?b)) with (Board.rowLength b).
  split; by vm_compute.
Qed.
End PauseAndPlay.

(** * The server *)

Section ServerProperties.
Import Server.
Variable serveStatic : string -> string -> Request -> option Response.



Lemma pathname_lower_length (s : string) :
  String.length (lower s) = String.length s.
Proof. induction s as [|c s IH]; simpl; [done|]. by rewrite IH. Qed.



End ServerProperties.

Section ServerExamples.
Import Server.
Variable serveStatic : string -> string -> Request -> option Response.

Example get_root :
  respond serveStatic "/srv" (mkRequest GET "/") = SentFile "/srv/index.html".
Proof. reflexivity. Qed.

Example head_root_with_query :
  respond serveStatic "/srv" (mkRequest HEAD "/?generation=3")
  = SentFile "/srv/index.html".
Proof. reflexivity. Qed.

Example get_public_file :
  respond serveStatic "/srv" (mkRequest GET "/public/life.js") =
  match serveStatic "/srv/public" "/life.js" (mkRequest GET "/public/life.js")
  with Some r => r | None => NotFound end.
Proof. reflexivity. Qed.

Example get_elsewhere :
  respond serveStatic "/srv" (mkRequest GET "/life.js") = NotFound.
Proof. reflexivity. Qed.

Example post_root :
  respond serveStatic "/srv" (mkRequest POST "/") = NotFound.
Proof. reflexivity. Qed.
End ServerExamples.

(** * Further properties of the board *)

Lemma exampleBoard_reachable rows cols draws :
  reachable (exampleBoard rows cols draws).
Proof.
  unfold exampleBoard.
  set (b0 := {| Board.rowLength := cols; Board.columnLength := rows;
                Board.cells := []; Board.cellSize := 8 |}).
  destruct (init_spec b0 {| outcome := draws; drawsMade := 0 |}
              {| fillStyle := Hsla 0 0 0 100; drawn := [] |}) as [style H].
  eapply reach_init. exact H.
Qed.

(** X1. On every board the script can hold, [isInBounds] says exactly
    whether [cells[row][col]] exists. *)
Theorem in_bounds_iff_cell_exists b row col :
  reachable b ->
  Board.isInBounds b row col = true <->
  is_Some (Board.getCell (Board.cells b) row col).
Proof.
  intros Hwf%reachable_well_formed. symmetry. by apply wf_getCell_is_Some.
Qed.

Lemma in_bounds_iff_cell_exists_witness :
  let b := exampleBoard 3 4 (drawsOf [1; 5; 6; 9]%nat) in
  reachable b /\
  (Board.isInBounds b 2 3 = true <->
   is_Some (Board.getCell (Board.cells b) 2 3)).
Proof.
  intros b. assert (reachable b) as Hr by apply exampleBoard_reachable.
  split; [exact Hr|]. exact (in_bounds_iff_cell_exists b 2 3 Hr).
Defined.

Lemma length_concat_shape n m : forall g : Board.Grid,
  shape g = replicate n m -> length (concat g) = (n * m)%nat.
Proof.
  unfold shape. induction n as [|n IH]; intros [|r g] H; simpl in *; try done.
  injection H as Hr Hg. rewrite length_app, (IH g Hg). lia.
Qed.

(** X2. With dimensions that are not negative, the getter [getCellCount]
    is the number of cell objects the board holds. *)
Theorem getCellCount_counts_cells b :
  reachable b ->
  0 <= Board.rowLength b -> 0 <= Board.columnLength b ->
  Board.getCellCount b = Z.of_nat (length (concat (Board.cells b))).
Proof.
  intros [Hs _]%reachable_well_formed Hr Hc.
  rewrite (length_concat_shape _ _ _ Hs). unfold Board.getCellCount. lia.
Qed.

Lemma getCellCount_counts_cells_witness :
  let b := exampleBoard 3 4 (drawsOf [1; 5; 6; 9]%nat) in
  (reachable b /\ 0 <= Board.rowLength b /\ 0 <= Board.columnLength b) /\
  Board.getCellCount b = Z.of_nat (length (concat (Board.cells b))).
Proof.
  intros b. assert (reachable b) as Hr by apply exampleBoard_reachable.
  assert (0 <= Board.rowLength b) as H1 by (simpl; lia).
  assert (0 <= Board.columnLength b) as H2 by (simpl; lia).
  split; [auto|]. exact (getCellCount_counts_cells b Hr H1 H2).
Defined.

Lemma elem_of_getNeighbours_adjacent b row col n :
  n ∈ Board.getNeighbours b row col <->
  adjacent (row, col) n /\ Board.isInBounds b (fst n) (snd n) = true.
Proof.
  rewrite elem_of_getNeighbours, adjacent_directions. simpl. split.
  - intros (d & Hd & -> & Hb). eauto.
  - intros [(d & Hd & ->) Hb]. eauto.
Qed.

(** X3. Being a neighbour is symmetric and irreflexive: of two cells of a
    board with dimensions below 2^53 each lists the other or neither does,
    and no cell lists itself. *)
Theorem neighbourhood_is_symmetric b row col row' col' :
  exact_positions b ->
  Board.isInBounds b row col = true ->
  Board.isInBounds b row' col' = true ->
  ((row', col') ∈ Board.getNeighbours b row col <->
   (row, col) ∈ Board.getNeighbours b row' col') /\
  (row, col) ∉ Board.getNeighbours b row col.
Proof.
  intros _ H1 H2. rewrite !elem_of_getNeighbours_adjacent. unfold adjacent.
  simpl. rewrite H1, H2. split; [split; intros [? _]; split; auto; lia|].
  intros [? _]. lia.
Qed.

Lemma neighbourhood_is_symmetric_witness :
  let b := exampleBoard 3 4 (drawsOf [1; 5; 6; 9]%nat) in
  (exact_positions b /\
   Board.isInBounds b 0 0 = true /\ Board.isInBounds b 1 1 = true) /\
  ((1, 1) ∈ Board.getNeighbours b 0 0 <-> (0, 0) ∈ Board.getNeighbours b 1 1) /\
  (0, 0) ∉ Board.getNeighbours b 0 0.
Proof.
  intros b.
  assert (exact_positions b) as H0 by (split; reflexivity).
  assert (Board.isInBounds b 0 0 = true) as H1 by reflexivity.
  assert (Board.isInBounds b 1 1 = true) as H2 by reflexivity.
  split; [auto|]. exact (neighbourhood_is_symmetric b 0 0 1 1 H0 H1 H2).
Defined.

(** X4. On a board with dimensions below 2^53, a cell has as many
    neighbours as its row has rows next to it times its column has columns
    next to it, itself taken off: 8 inside the board, 5 on an edge, 3 in a
    corner (fewer on a board of a single row or column). *)
Theorem neighbour_list_length b row col :
  exact_positions b ->
  Board.isInBounds b row col = true ->
  Z.of_nat (length (Board.getNeighbours b row col)) =
  span row (Board.columnLength b) * span col (Board.rowLength b) - 1.
Proof.
  intros _ Hb. rewrite getNeighbours_flat.
  unfold Board.isInBounds in Hb.
  rewrite !andb_true_iff, !Z.leb_le, !Z.ltb_lt in Hb.
  unfold Board.directions, Board.isInBounds, span.
  cbn [flat_map fst snd]. rewrite !length_app.
  repeat (case_compare; cbn [andb length] in *; try lia).
Qed.

Lemma neighbour_list_length_witness :
  let b := exampleBoard 3 4 (drawsOf [1; 5; 6; 9]%nat) in
  (exact_positions b /\ Board.isInBounds b 0 3 = true) /\
  Z.of_nat (length (Board.getNeighbours b 0 3)) =
  span 0 (Board.columnLength b) * span 3 (Board.rowLength b) - 1.
Proof.
  intros b.
  assert (exact_positions b) as H0 by (split; reflexivity).
  assert (Board.isInBounds b 0 3 = true) as H by reflexivity.
  split; [auto|]. exact (neighbour_list_length b 0 3 H0 H).
Defined.

Lemma countAlive_bounds g ns :
  0 <= countAlive g ns <= Z.of_nat (length ns).
Proof.
  unfold countAlive. induction ns as [|n ns IH]; simpl; [lia|].
  destruct (Board.getCell g (fst n) (snd n)) as [nb|];
    [destruct (Cell.alive nb)|]; simpl; lia.
Qed.

Lemma length_getNeighbours b row col :
  (length (Board.getNeighbours b row col) <= 8)%nat.
Proof.
  rewrite getNeighbours_flat.
  change 8%nat with (length Board.directions).
  induction Board.directions as [|d ds IH]; simpl; [lia|].
  rewrite length_app. destruct (Board.isInBounds b _ _); simpl; lia.
Qed.

(** X5. After a generation the count stored in every cell lies between 0
    and the length of its neighbour list, which is at most 8. *)
Theorem living_count_bounds b :
  reachable b ->
  exists b',
    Board.tick b = Some b' /\
    forall row col cell',
      Board.getCell (Board.cells b') row col = Some cell' ->
      0 <= Cell.livingNeighbous cell'
        <= Z.of_nat (length (Cell.neighbours cell')) /\
      (length (Cell.neighbours cell') <= 8)%nat.
Proof.
  intros Hwf%reachable_well_formed. exists (Reference.step b).
  split; [by apply tick_reference|].
  intros row col cell'. rewrite getCell_step.
  destruct (Board.getCell (Board.cells b) row col) as [cell|] eqn:Hc; [|done].
  simpl. intros [= <-]. simpl.
  destruct (wf_cell b Hwf _ _ _ Hc) as (-> & _).
  rewrite <- countAlive_getNeighbours by done.
  split; [apply countAlive_bounds|apply length_getNeighbours].
Qed.

Lemma living_count_bounds_witness :
  let b := exampleBoard 3 4 (drawsOf [1; 5; 6; 9]%nat) in
  reachable b /\
  exists b',
    Board.tick b = Some b' /\
    forall row col cell',
      Board.getCell (Board.cells b') row col = Some cell' ->
      0 <= Cell.livingNeighbous cell'
        <= Z.of_nat (length (Cell.neighbours cell')) /\
      (length (Cell.neighbours cell') <= 8)%nat.
Proof.
  intros b. assert (reachable b) as Hr by apply exampleBoard_reachable.
  split; [exact Hr|]. exact (living_count_bounds b Hr).
Defined.

Lemma same_but_counts_aliveAt b1 b2 row col :
  same_but_counts b1 b2 ->
  Reference.aliveAt b1 row col = Reference.aliveAt b2 row col.
Proof.
  intros (_ & _ & _ & H). specialize (H row col). unfold Reference.aliveAt.
  destruct (Board.getCell (Board.cells b1) row col),
           (Board.getCell (Board.cells b2) row col); simpl in H; try done.
  by injection H.
Qed.

Lemma same_but_counts_liveNeighbours b1 b2 row col :
  same_but_counts b1 b2 ->
  Reference.liveNeighbours b1 row col = Reference.liveNeighbours b2 row col.
Proof.
  intros H. unfold Reference.liveNeighbours. f_equal. apply map_ext.
  intros d. rewrite (same_but_counts_aliveAt b1 b2) by done.
  destruct H as (Hr & Hc & _). unfold Board.isInBounds. by rewrite Hr, Hc.
Qed.

Lemma withCounts_well_formed b :
  well_formed b -> well_formed (Board.set_cells (withCounts b) b).
Proof.
  intros [Hs Hc]. split; simpl.
  - by rewrite shape_withCounts.
  - intros row col cell'. rewrite getCell_withCounts.
    destruct (Board.getCell (Board.cells b) row col) as [cell|] eqn:E; [|done].
    simpl. intros [= <-]. simpl. by apply Hc.
Qed.

Lemma same_but_counts_withCounts b :
  same_but_counts b (Board.set_cells (withCounts b) b).
Proof.
  repeat split. intros row col. cbn [Board.cells Board.set_cells].
  rewrite getCell_withCounts.
  by destruct (Board.getCell (Board.cells b) row col).
Qed.

(** X6. The counting pass starts every cell from 0: its result does not
    depend on the counts the cells held before, only on the alive flags. *)
Theorem counting_ignores_old_counts b1 b2 :
  well_formed b1 -> well_formed b2 -> same_but_counts b1 b2 ->
  Board.updateLivingNeighbours b1 = Board.updateLivingNeighbours b2 /\
  is_Some (Board.updateLivingNeighbours b1).
Proof.
  intros Hwf1 Hwf2 Hsame.
  rewrite !updateLivingNeighbours_spec by done. split; [|done].
  assert (withCounts b1 = withCounts b2) as ->.
  { apply grid_ext.
    - rewrite !shape_withCounts, (wf_shape _ Hwf1), (wf_shape _ Hwf2).
      destruct Hsame as (-> & -> & _). done.
    - intros row col. rewrite !getCell_withCounts.
      rewrite (same_but_counts_liveNeighbours b1 b2) by done.
      destruct Hsame as (_ & _ & _ & H). specialize (H row col).
      destruct (Board.getCell (Board.cells b1) row col) as [c1|],
               (Board.getCell (Board.cells b2) row col) as [c2|];
        simpl in *; try done.
      injection H as Ha Hn Hp Hz. f_equal.
      destruct c1, c2; simpl in *. by subst. }
  destruct Hsame as (Hr & Hc & Hz & _). destruct b1, b2; simpl in *.
  by subst.
Qed.

Lemma counting_ignores_old_counts_witness :
  let b1 := exampleBoard 3 4 (drawsOf [1; 5; 6; 9]%nat) in
  let b2 := Board.set_cells (withCounts b1) b1 in
  (well_formed b1 /\ well_formed b2 /\ same_but_counts b1 b2) /\
  Board.updateLivingNeighbours b1 = Board.updateLivingNeighbours b2 /\
  is_Some (Board.updateLivingNeighbours b1).
Proof.
  intros b1 b2.
  assert (well_formed b1) as H1 by apply exampleBoard_well_formed.
  assert (well_formed b2) as H2 by (by apply withCounts_well_formed).
  assert (same_but_counts b1 b2) as H3 by apply same_but_counts_withCounts.
  split; [auto|]. exact (counting_ignores_old_counts b1 b2 H1 H2 H3).
Defined.

Lemma mapCells_idem (f : Cell.t -> Cell.t) (g : Board.Grid) :
  (forall c, f (f c) = f c) -> mapCells f (mapCells f g) = mapCells f g.
Proof.
  intros Hf. apply grid_ext; [by rewrite !shape_fmap|].
  intros row col. rewrite !getCell_fmap.
  destruct (Board.getCell g row col); simpl; [|done]. by rewrite Hf.
Qed.

(** X7. Without a new count the rule pass changes nothing the second
    time: a cell it has let die is not brought back, a cell it has let be
    born does not die. *)
Theorem rule_pass_is_idempotent b :
  reachable b ->
  exists b1 b2,
    Board.updateLivingNeighbours b = Some b1 /\
    Board.updateAliveStatus b1 = Some b2 /\
    Board.updateAliveStatus b2 = Some b2.
Proof.
  intros Hwf%reachable_well_formed.
  exists (Board.set_cells (withCounts b) b), (Reference.step b).
  split; [by apply updateLivingNeighbours_spec|].
  split; [by apply updateAliveStatus_spec|].
  assert (well_formed (Reference.step b)) as Hwf' by by apply step_well_formed.
  unfold Board.updateAliveStatus. rewrite for_range_nested.
  fold (positions (Reference.step b)).
  rewrite (rule_pass_all (Reference.step b)) by auto using positions_cover.
  cbn [mbind option_bind]. f_equal.
  rewrite <- (applied_withCounts b) by done.
  rewrite mapCells_idem by apply applyRule_idem.
  rewrite applied_withCounts by done. unfold Reference.step. done.
Qed.

Lemma rule_pass_is_idempotent_witness :
  let b := exampleBoard 3 4 (drawsOf [1; 5; 6; 9]%nat) in
  reachable b /\
  exists b1 b2,
    Board.updateLivingNeighbours b = Some b1 /\
    Board.updateAliveStatus b1 = Some b2 /\
    Board.updateAliveStatus b2 = Some b2.
Proof.
  intros b. assert (reachable b) as Hr by apply exampleBoard_reachable.
  split; [exact Hr|]. exact (rule_pass_is_idempotent b Hr).
Defined.

(** X8. The next state of a cell depends only on the cell and the places
    next to it: on two boards of the same dimensions that agree there, the
    cell is alive after a generation on both or on neither. *)
Theorem next_state_is_local b1 b2 row col :
  reachable b1 -> reachable b2 ->
  Board.rowLength b1 = Board.rowLength b2 ->
  Board.columnLength b1 = Board.columnLength b2 ->
  agree_around b1 b2 row col ->
  exists b1' b2',
    Board.tick b1 = Some b1' /\ Board.tick b2 = Some b2' /\
    Reference.aliveAt b1' row col = Reference.aliveAt b2' row col.
Proof.
  intros Hwf1%reachable_well_formed Hwf2%reachable_well_formed Hr Hc Hag.
  exists (Reference.step b1), (Reference.step b2).
  split; [by apply tick_reference|]. split; [by apply tick_reference|].
  rewrite !aliveAt_step by done.
  unfold Reference.liveNeighbours, Reference.offsets, Board.isInBounds.
  cbn [map fold_right fst snd]. unfold agree_around in Hag.
  rewrite !(Hag _ _) by lia. by rewrite Hr, Hc.
Qed.

Lemma next_state_is_local_witness :
  let b1 := exampleBoard 3 4 (drawsOf [1; 5; 6; 9]%nat) in
  let b2 := exampleBoard 3 4 (drawsOf [1; 3; 5; 6; 9]%nat) in
  (reachable b1 /\ reachable b2 /\
   Board.rowLength b1 = Board.rowLength b2 /\
   Board.columnLength b1 = Board.columnLength b2 /\
   agree_around b1 b2 1 0) /\
  exists b1' b2',
    Board.tick b1 = Some b1' /\ Board.tick b2 = Some b2' /\
    Reference.aliveAt b1' 1 0 = Reference.aliveAt b2' 1 0.
Proof.
  intros b1 b2.
  assert (reachable b1) as H1 by apply exampleBoard_reachable.
  assert (reachable b2) as H2 by apply exampleBoard_reachable.
  assert (Board.rowLength b1 = Board.rowLength b2) as H3 by reflexivity.
  assert (Board.columnLength b1 = Board.columnLength b2) as H4 by reflexivity.
  assert (agree_around b1 b2 1 0) as H5.
  { intros r c Hr Hc.
    assert (r = 0 \/ r = 1 \/ r = 2) as Hr' by lia.
    assert (c = -1 \/ c = 0 \/ c = 1) as Hc' by lia.
    destruct Hr' as [->|[->| ->]], Hc' as [->|[->| ->]]; by vm_compute. }
  split; [auto 6|]. exact (next_state_is_local b1 b2 1 0 H1 H2 H3 H4 H5).
Defined.

(** X9. A board without columns or without rows has no cell: [init] makes
    no draw and paints nothing, every access to a cell fails, and a
    generation leaves the board as it is. *)
Theorem init_without_cells b0 rng0 ctx0 :
  Board.rowLength b0 <= 0 \/ Board.columnLength b0 <= 0 ->
  exists b ctx1,
    Board.init b0 rng0 ctx0 = Some (b, rng0, ctx1) /\
    drawn ctx1 = drawn ctx0 /\
    (forall row col, Board.getCell (Board.cells b) row col = None) /\
    Board.tick b = Some b.
Proof.
  intros Hdim. destruct (init_spec b0 rng0 ctx0) as [style Hinit].
  set (b := Board.set_cells _ b0) in *.
  assert (well_formed b) as Hwf by apply freshRows_well_formed.
  assert (forall row col, Board.getCell (Board.cells b) row col = None) as Hnone.
  { intros row col.
    destruct (Board.getCell (Board.cells b) row col) as [cell|] eqn:Hc; [|done].
    assert (Board.isInBounds b row col = true) as Hb.
    { apply wf_getCell_is_Some; [done|]. by rewrite Hc. }
    unfold Board.isInBounds in Hb. simpl in Hb.
    rewrite !andb_true_iff, !Z.leb_le, !Z.ltb_lt in Hb. lia. }
  assert (drawOps b = []) as Hops.
  { unfold drawOps. induction (positions b) as [|p ps IH]; simpl; [done|].
    by rewrite Hnone. }
  assert ((Z.to_nat (Board.columnLength b0) * Z.to_nat (Board.rowLength b0))%nat
          = 0%nat) as Hzero by lia.
  rewrite Hzero, advance_0, Hops, app_nil_r in Hinit.
  exists b. eexists. split; [exact Hinit|]. split; [done|]. split; [done|].
  rewrite tick_reference by done. f_equal.
  assert (Board.cells (Reference.step b) = Board.cells b) as Hcells.
  { apply grid_ext; [apply shape_step|]. intros row col.
    by rewrite getCell_step, Hnone. }
  unfold Reference.step in *. cbn [Board.cells Board.set_cells] in Hcells.
  rewrite Hcells. unfold b. done.
Qed.

Lemma init_without_cells_witness :
  let b0 := Board.new 0 in
  let rng0 := {| outcome := drawsOf []; drawsMade := 0 |} in
  let ctx0 := {| fillStyle := Hsla 0 0 0 100; drawn := [] |} in
  (Board.rowLength b0 <= 0 \/ Board.columnLength b0 <= 0) /\
  exists b ctx1,
    Board.init b0 rng0 ctx0 = Some (b, rng0, ctx1) /\
    drawn ctx1 = drawn ctx0 /\
    (forall row col, Board.getCell (Board.cells b) row col = None) /\
    Board.tick b = Some b.
Proof.
  intros b0 rng0 ctx0.
  assert (Board.rowLength b0 <= 0 \/ Board.columnLength b0 <= 0) as H
    by (left; simpl; lia).
  split; [exact H|]. exact (init_without_cells b0 rng0 ctx0 H).
Defined.

(** * Further properties of [draw] *)

Lemma length_zrange n : forall i, length (zrange n i) = n.
Proof. induction n as [|n IH]; intros i; simpl; auto. Qed.

Lemma lookup_zrange n : forall i k,
  (k < n)%nat -> zrange n i !! k = Some (i + Z.of_nat k).
Proof.
  induction n as [|n IH]; intros i k Hk; [lia|].
  destruct k as [|k]; simpl.
  - f_equal. lia.
  - rewrite IH by lia. f_equal. lia.
Qed.

Lemma lookup_map_pair {A B : Type} (a : A) (l : list B) j y :
  l !! j = Some y -> map (pair a) l !! j = Some (a, y).
Proof.
  revert j. induction l as [|x l IH]; intros [|j] H; simpl in *; try done.
  - by injection H as ->.
  - by apply IH.
Qed.

Lemma lookup_list_prod {A B : Type} (l1 : list A) (l2 : list B) :
  forall i j x y,
    l1 !! i = Some x -> l2 !! j = Some y ->
    list_prod l1 l2 !! (i * length l2 + j)%nat = Some (x, y).
Proof.
  induction l1 as [|a l1 IH]; intros i j x y Hx Hy; [done|].
  assert (j < length l2)%nat as Hj by (by eapply lookup_lt_Some).
  destruct i as [|i]; simpl in *.
  - injection Hx as ->. rewrite lookup_app_l by (by rewrite length_map).
    by apply lookup_map_pair.
  - rewrite lookup_app_r by (rewrite length_map; lia).
    rewrite length_map.
    replace (length l2 + i * length l2 + j - length l2)%nat
      with (i * length l2 + j)%nat by lia.
    by apply IH.
Qed.

Lemma lookup_positions b row col :
  Board.isInBounds b row col = true ->
  positions b !! (Z.to_nat row * Z.to_nat (Board.rowLength b) + Z.to_nat col)%nat
  = Some (row, col).
Proof.
  unfold Board.isInBounds, positions.
  rewrite !andb_true_iff, !Z.leb_le, !Z.ltb_lt. intros [[[? ?] ?] ?].
  pose proof (lookup_list_prod
                (zrange (Z.to_nat (Board.columnLength b)) 0)
                (zrange (Z.to_nat (Board.rowLength b)) 0)
                (Z.to_nat row) (Z.to_nat col) row col) as Hlk.
  rewrite length_zrange in Hlk. apply Hlk.
  - rewrite lookup_zrange by lia. f_equal. lia.
  - rewrite lookup_zrange by lia. f_equal. lia.
Qed.

Lemma length_positions b :
  length (positions b) =
  (Z.to_nat (Board.columnLength b) * Z.to_nat (Board.rowLength b))%nat.
Proof. unfold positions. by rewrite length_prod, !length_zrange. Qed.

Lemma drawOps_loop b ps :
  (forall p, p ∈ ps -> is_Some (Board.getCell (Board.cells b) (fst p) (snd p))) ->
  let ops := flat_map (fun p =>
               match Board.getCell (Board.cells b) (fst p) (snd p) with
               | Some cell => [fillOf cell]
               | None => []
               end) ps in
  length ops = length ps /\
  forall k p cell,
    ps !! k = Some p ->
    Board.getCell (Board.cells b) (fst p) (snd p) = Some cell ->
    ops !! k = Some (fillOf cell).
Proof.
  induction ps as [|q ps IH]; intros Hps; simpl; [done|].
  destruct (Hps q) as [cq Hq]; [by left|]. rewrite Hq. simpl.
  destruct IH as [Hlen Hlook]; [intros p Hp; apply Hps; by right|].
  split; [by rewrite Hlen|].
  intros [|k] p cell Hp Hc; simpl in *.
  - injection Hp as <-. congruence.
  - by eapply Hlook.
Qed.

Lemma drawOps_spec b :
  well_formed b ->
  length (drawOps b) =
    (Z.to_nat (Board.columnLength b) * Z.to_nat (Board.rowLength b))%nat /\
  forall row col cell,
    Board.getCell (Board.cells b) row col = Some cell ->
    drawOps b !! (Z.to_nat row * Z.to_nat (Board.rowLength b) + Z.to_nat col)%nat
    = Some (fillOf cell).
Proof.
  intros Hwf. destruct (drawOps_loop b (positions b)) as [Hlen Hlook].
  { intros [r c] Hp. apply wf_getCell_is_Some; [done|].
    by apply elem_of_positions. }
  split; [by rewrite <- length_positions|].
  intros row col cell Hc. apply (Hlook _ (row, col)); [|done].
  apply lookup_positions, wf_getCell_is_Some; [done|]. by rewrite Hc.
Qed.

(** X10. [draw] never fails on a board the script can hold.  It keeps what
    was painted before and adds one rectangle per cell, row by row: the cell
    at [(row, col)] is the square of side [cellSize] at
    [(col * cellSize, row * cellSize)], in the colour of hue [row + 4 * col]
    when the cell is alive and in the fixed dark colour when it is dead. *)
Theorem draw_paints_every_cell b ctx0 :
  reachable b ->
  exists ctx1 ops,
    Board.draw b ctx0 = Some ctx1 /\
    drawn ctx1 = drawn ctx0 ++ ops /\
    length ops =
      (Z.to_nat (Board.columnLength b) * Z.to_nat (Board.rowLength b))%nat /\
    forall row col cell,
      Board.getCell (Board.cells b) row col = Some cell ->
      ops !! (Z.to_nat row * Z.to_nat (Board.rowLength b) + Z.to_nat col)%nat =
      Some (FillRect
              (if Cell.alive cell then Hsla (row + col * 4) 80 80 100
               else Hsla 240 30 20 100)
              (col * Board.cellSize b) (row * Board.cellSize b)
              (Board.cellSize b) (Board.cellSize b)).
Proof.
  intros Hwf%reachable_well_formed.
  destruct (draw_spec b ctx0 Hwf) as [style Hd].
  destruct (drawOps_spec b Hwf) as [Hlen Hlook].
  eexists. exists (drawOps b). split; [exact Hd|]. split; [done|].
  split; [done|]. intros row col cell Hc. rewrite (Hlook _ _ _ Hc).
  destruct (wf_cell b Hwf _ _ _ Hc) as (_ & Hp & Hs).
  unfold fillOf, Board.cellStyle. by rewrite Hp, Hs.
Qed.

Lemma draw_paints_every_cell_witness :
  let b := exampleBoard 3 4 (drawsOf [1; 5; 6; 9]%nat) in
  let ctx0 := {| fillStyle := Hsla 0 0 0 100; drawn := [] |} in
  reachable b /\
  exists ctx1 ops,
    Board.draw b ctx0 = Some ctx1 /\
    drawn ctx1 = drawn ctx0 ++ ops /\
    length ops =
      (Z.to_nat (Board.columnLength b) * Z.to_nat (Board.rowLength b))%nat /\
    forall row col cell,
      Board.getCell (Board.cells b) row col = Some cell ->
      ops !! (Z.to_nat row * Z.to_nat (Board.rowLength b) + Z.to_nat col)%nat =
      Some (FillRect
              (if Cell.alive cell then Hsla (row + col * 4) 80 80 100
               else Hsla 240 30 20 100)
              (col * Board.cellSize b) (row * Board.cellSize b)
              (Board.cellSize b) (Board.cellSize b)).
Proof.
  intros b ctx0. assert (reachable b) as Hr by apply exampleBoard_reachable.
  split; [exact Hr|]. exact (draw_paints_every_cell b ctx0 Hr).
Defined.

Example draw_small_board :
  drawn <$> Board.draw (exampleBoard 1 2 (drawsOf [1]%nat))
              {| fillStyle := Hsla 0 0 0 100; drawn := [] |}
  = Some [FillRect (Hsla 240 30 20 100) 0 0 8 8;
          FillRect (Hsla 4 80 80 100) 8 0 8 8].
Proof. reflexivity. Qed.

(** * Further properties of the animation controller *)

Section ControllerInvariants.
Import AnimationController.

Lemma init_fields b0 rng0 ctx0 b rng1 ctx1 :
  Board.init b0 rng0 ctx0 = Some (b, rng1, ctx1) ->
  Board.rowLength b = Board.rowLength b0 /\
  Board.columnLength b = Board.columnLength b0 /\
  Board.cellSize b = Board.cellSize b0.
Proof.
  destruct (init_spec b0 rng0 ctx0) as [style ->]. by intros [= <- _ _].
Qed.

Lemma tick_cellSize b b' :
  Board.tick b = Some b' -> Board.cellSize b' = Board.cellSize b.
Proof.
  unfold Board.tick, Board.updateLivingNeighbours, Board.updateAliveStatus.
  destruct (for_range _ _ (Board.cells b)) as [g1|]; simpl; [|done].
  destruct (for_range _ _ g1) as [g2|]; simpl; [|done]. by intros [= <-].
Qed.

(** What [animate] does when it does not fail. *)
Lemma animate_inv time a p st' :
  animate time (a, p) = Some st' ->
  Board.tick (board a) = Some (board (fst st')) /\
  isPlaying (fst st') = isPlaying a /\
  fps (fst st') = fps a /\
  frames (snd st') = frames p /\
  timers (snd st') = timers p ++ [1000 / fps a] /\
  nextHandle (snd st') = nextHandle p.
Proof.
  unfold animate, Board.tick.
  destruct (Board.updateLivingNeighbours (board a)) as [b1|]; simpl; [|done].
  destruct (Board.updateAliveStatus b1) as [b2|]; simpl; [|done].
  destruct (Board.draw b2 _) as [c|]; simpl; [|done]. by intros [= <-].
Qed.

Lemma dispatch_board ev st st' :
  reachable (board (fst st)) ->
  dispatch ev st = Some st' ->
  reachable (board (fst st')) /\
  Board.cellSize (board (fst st')) = Board.cellSize (board (fst st)) /\
  fps (fst st') = fps (fst st).
Proof.
  destruct st as [a p]. intros Hr. destruct ev as [| | |h t|k]; unfold dispatch.
  - intros [= <-]. unfold play. by destruct (isPlaying a).
  - intros [= <-]. unfold pause. by destruct (isPlaying a).
  - unfold restart.
    destruct (pause (a, p)) as [a1 p1] eqn:Hp.
    assert (board a1 = board a /\ fps a1 = fps a) as [Hb Hf].
    { unfold pause in Hp. destruct (isPlaying a); by injection Hp as <- _. }
    destruct (Board.init (board a1) _ _) as [[[b r] c]|] eqn:Hi;
      cbn [mbind option_bind]; [|done].
    intros [= <-]. cbn [fst board set_board fps].
    split; [by eapply reach_init|].
    apply init_fields in Hi as (_ & _ & ->). by rewrite Hb.
  - case_bool_decide; [|done].
    intros (Ht & _ & Hf & _)%animate_inv. cbn [fst] in *.
    split; [by eapply reach_tick|]. split; [by apply tick_cellSize|done].
  - destruct (timers p !! k); [|done]. intros [= <-].
    unfold timerFired. by destruct (isPlaying a).
Qed.

Lemma run_board evs : forall st st',
  reachable (board (fst st)) ->
  run evs st = Some st' ->
  reachable (board (fst st')) /\
  Board.cellSize (board (fst st')) = Board.cellSize (board (fst st)) /\
  fps (fst st') = fps (fst st).
Proof.
  unfold run. induction evs as [|ev evs IH]; intros st st' Hr; simpl.
  - by intros [= <-].
  - destruct (dispatch ev st) as [st1|] eqn:H1; simpl; [|done].
    intros H2. apply (dispatch_board _ _ _ Hr) in H1 as (Hr1 & Hc1 & Hf1).
    apply (IH _ _ Hr1) in H2 as (? & ? & ?). repeat split; congruence.
Qed.

Lemma new_inv fps0 p a p' :
  new fps0 p = Some (a, p') ->
  reachable (board a) /\
  Board.rowLength (board a) = cellsPerRow /\
  Board.columnLength (board a) = canvasHeight / (canvasWidth / cellsPerRow) /\
  Board.cellSize (board a) = canvasWidth / cellsPerRow /\
  fps a = fps0 /\ isPlaying a = false /\ tref a = 0 /\
  frames p' = frames p /\ timers p' = timers p /\
  nextHandle p' = nextHandle p /\ lastTime p' = lastTime p.
Proof.
  unfold new.
  destruct (Board.init (Board.new cellsPerRow) (rng p) (ctx p))
    as [[[b r] c]|] eqn:Hi; cbn [mbind option_bind]; [|done].
  intros [= <- <-]. cbn [board fps isPlaying tref].
  split; [by eapply reach_init|].
  apply init_fields in Hi as (-> & -> & ->). done.
Qed.

(** Every state the page can reach from the script's controller holds a
    board [init] and the ticks have made, of the configured dimensions and
    cell size. *)
Lemma ac_run_invariant draws evs st :
  ac draws ≫= run evs = Some st ->
  reachable (board (fst st)) /\
  Board.rowLength (board (fst st)) = cellsPerRow /\
  Board.columnLength (board (fst st)) = canvasHeight / (canvasWidth / cellsPerRow) /\
  Board.cellSize (board (fst st)) = canvasWidth / cellsPerRow /\
  fps (fst st) = 5.
Proof.
  unfold ac. destruct (new 5 (freshPage draws)) as [[a0 p0]|] eqn:Hnew;
    cbn [mbind option_bind]; [|done].
  intros Hrun. apply new_inv in Hnew as (Hr & Hrow & Hcol & Hsize & Hfps & _).
  pose proof (run_dims _ _ _ Hrun) as Hd.
  apply (run_board evs (a0, p0) st Hr) in Hrun as (Hr' & Hs' & Hf').
  unfold dimensions in Hd. cbn [fst] in *. injection Hd as Hd1 Hd2.
  repeat split; congruence.
Qed.
End ControllerInvariants.

Section ControllerExtras.
Import AnimationController.

(** X11. Constructing a controller never fails and starts nothing: the
    controller is stopped with no frame reference, its board is the one of
    the configured dimensions that [init] built, no frame or timer is
    requested, one random draw per cell has been made and one rectangle per
    cell painted. *)
Theorem constructor_starts_stopped fps0 p :
  exists a p',
    new fps0 p = Some (a, p') /\
    fps a = fps0 /\ isPlaying a = false /\ tref a = 0 /\
    reachable (board a) /\
    Board.rowLength (board a) = cellsPerRow /\
    Board.columnLength (board a) = canvasHeight / (canvasWidth / cellsPerRow) /\
    Board.cellSize (board a) = canvasWidth / cellsPerRow /\
    frames p' = frames p /\ timers p' = timers p /\
    nextHandle p' = nextHandle p /\ lastTime p' = lastTime p /\
    drawsMade (rng p') =
      (Z.to_nat (Board.columnLength (board a))
       * Z.to_nat (Board.rowLength (board a)) + drawsMade (rng p))%nat /\
    length (drawn (ctx p')) =
      (length (drawn (ctx p))
       + Z.to_nat (Board.columnLength (board a))
         * Z.to_nat (Board.rowLength (board a)))%nat.
Proof.
  destruct (new_spec fps0 p) as [style Hnew].
  eexists. eexists. split; [exact Hnew|].
  pose proof (new_inv _ _ _ _ Hnew) as
    (Hr & Hrow & Hcol & Hsize & Hf & Hp & Ht & Hfr & Htm & Hn & Hl).
  clear Hnew.
  cbn [board fps isPlaying tref set_ctx set_rng rng ctx frames timers
       nextHandle lastTime drawn advance drawsMade] in *.
  repeat (split; [done|]).
  match goal with |- context [drawOps ?b] =>
    destruct (drawOps_spec b) as [Hlen _]; [apply freshRows_well_formed|]
  end.
  rewrite length_app, Hlen. reflexivity.
Qed.

(** X12. No handler ever throws: in every state the page can reach from
    the script's controller, a click, a pending frame and a pending timer are
    all handled to the end. *)
Theorem no_handler_throws draws evs st ev :
  ac draws ≫= run evs = Some st ->
  enabled ev st ->
  is_Some (dispatch ev st).
Proof.
  intros (Hr%reachable_well_formed & _)%ac_run_invariant.
  destruct st as [a p]. cbn [fst] in Hr.
  destruct ev as [| | |h t|k]; unfold enabled, dispatch; cbn [snd]; intros Hen.
  - done.
  - done.
  - destruct (restart_spec a p) as [style ->]. done.
  - rewrite bool_decide_true by done.
    destruct (animate_spec t a
                (set_frames (List.filter (fun h0 => negb (h0 =? h)) (frames p)) p)
                Hr) as [style ->]. done.
  - apply lookup_lt_is_Some_2 in Hen as [d ->]. done.
Qed.

Lemma no_handler_throws_witness :
  exists st,
    (ac (fun _ => false) ≫= run [PlayClicked] = Some st /\
     enabled (FrameDue 1 16) st) /\
    is_Some (dispatch (FrameDue 1 16) st).
Proof.
  destruct (ac_spec (fun _ => false))
    as ([a0 p0] & H0 & _ & _ & _ & Hplay & Hfr & _ & Hnext).
  cbn [fst snd] in *.
  exists (play (a0, p0)).
  assert (ac (fun _ => false) ≫= run [PlayClicked] = Some (play (a0, p0)))
    as Hrun by (by rewrite H0).
  assert (enabled (FrameDue 1 16) (play (a0, p0))) as Hen.
  { clear H0 Hrun. rewrite (play_starts_loop a0 p0 Hplay).
    cbn [enabled snd requestAnimationFrame frames]. rewrite Hfr, Hnext.
    by left. }
  split; [auto|].
  exact (no_handler_throws (fun _ => false) [PlayClicked] _ _ Hrun Hen).
Defined.

(** X13. Whatever has happened on the page, [draw] paints only squares of
    the size of a cell that lie on the canvas, on the grid of cells, and
    never clears. *)
Theorem draw_stays_on_canvas draws evs st ctx0 :
  ac draws ≫= run evs = Some st ->
  exists ctx1 ops,
    Board.draw (board (fst st)) ctx0 = Some ctx1 /\
    drawn ctx1 = drawn ctx0 ++ ops /\
    forall op, op ∈ ops -> onCanvas op.
Proof.
  intros (Hr%reachable_well_formed & Hrow & Hcol & Hsize & _)%ac_run_invariant.
  set (b := board (fst st)) in *.
  destruct (draw_spec b ctx0 Hr) as [style Hd].
  eexists. exists (drawOps b). split; [exact Hd|]. split; [done|].
  intros op. unfold drawOps. rewrite list_elem_of_In, in_flat_map.
  intros ([row col] & Hp%list_elem_of_In & Hop). cbn [fst snd] in Hop.
  destruct (Board.getCell (Board.cells b) row col) as [cell|] eqn:Hc; [|done].
  destruct Hop as [<-|[]].
  destruct (wf_cell b Hr _ _ _ Hc) as (_ & Hpos & Hs).
  apply elem_of_positions in Hp. unfold Board.isInBounds in Hp.
  rewrite !andb_true_iff, !Z.leb_le, !Z.ltb_lt, Hrow, Hcol in Hp.
  unfold fillOf, onCanvas. rewrite Hpos, Hs, Hsize. cbn [fst snd].
  change (canvasWidth / cellsPerRow) with 8 in *.
  change (canvasHeight / 8) with 100 in *.
  change cellsPerRow with 100 in *.
  change canvasWidth with 800. change canvasHeight with 800.
  rewrite !Z.mod_mul by lia. lia.
Qed.

Lemma draw_stays_on_canvas_witness :
  exists st,
    ac (fun _ => false) ≫= run [PlayClicked] = Some st /\
    exists ctx1 ops,
      Board.draw (board (fst st))
        {| fillStyle := Hsla 0 0 0 100; drawn := [] |} = Some ctx1 /\
      drawn ctx1 = [] ++ ops /\
      forall op, op ∈ ops -> onCanvas op.
Proof.
  destruct (ac_spec (fun _ => false)) as (st0 & H0 & _).
  exists (play st0).
  assert (ac (fun _ => false) ≫= run [PlayClicked] = Some (play st0)) as Hrun
    by (by rewrite H0).
  split; [exact Hrun|].
  exact (draw_stays_on_canvas (fun _ => false) [PlayClicked] _
           {| fillStyle := Hsla 0 0 0 100; drawn := [] |} Hrun).
Defined.
End ControllerExtras.

Section LoopExtras.
Import AnimationController.

Lemma filter_out_shorter (h : Z) (l : list Z) :
  h ∈ l ->
  (length (List.filter (fun h' => negb (Z.eqb h' h)) l) < length l)%nat.
Proof.
  induction l as [|x l IH]; intros Hin; [by apply elem_of_nil in Hin|].
  simpl. destruct (Z.eqb_spec x h) as [->|Hne]; simpl.
  - pose proof (filter_length_le (fun h' => negb (h' =? h)) l). lia.
  - apply elem_of_cons in Hin as [->|Hin]; [done|]. apply IH in Hin. lia.
Qed.

(** X14. Once the controller is stopped the loop runs out by itself: as
    long as no button is clicked the controller stays stopped, every further
    tick uses up a frame that was already pending, and the callbacks that can
    still run are bounded by twice the pending frames plus the pending
    timers. *)
Theorem stopped_loop_runs_out evs : forall st st',
  isPlaying (fst st) = false ->
  forallb isCallback evs = true ->
  run evs st = Some st' ->
  isPlaying (fst st') = false /\
  (length (List.filter isFrame evs) <= length (frames (snd st)))%nat /\
  (length evs <= 2 * length (frames (snd st)) + length (timers (snd st)))%nat.
Proof.
  unfold run. induction evs as [|ev evs IH]; intros [a p] st' Hstop Hcb Hrun.
  - simpl in *. injection Hrun as <-. split; [done|]. lia.
  - cbn [forallb] in Hcb. apply andb_true_iff in Hcb as [Hev Hcb].
    cbn [forEach] in Hrun.
    destruct (dispatch ev (a, p)) as [[a1 p1]|] eqn:Hd;
      cbn [mbind option_bind] in Hrun; [|done].
    cbn [fst snd] in *.
    destruct ev as [| | |h t|k]; try done; unfold dispatch in Hd.
    + case_bool_decide as Hin; [|done].
      apply animate_inv in Hd as (_ & Hp1 & _ & Hf1 & Ht1 & _).
      cbn [fst snd frames timers set_frames] in *.
      assert (isPlaying a1 = false) as Hs1 by (rewrite Hp1; exact Hstop).
      destruct (IH (a1, p1) st' Hs1 Hcb Hrun) as (Hs & Hfr & Hlen).
      cbn [fst snd] in *. rewrite Hf1 in Hfr, Hlen. rewrite Ht1 in Hlen.
      rewrite length_app in Hlen. cbn [length List.filter isFrame] in *.
      pose proof (filter_out_shorter h (frames p) Hin).
      split; [done|]. lia.
    + destruct (timers p !! k) as [d|] eqn:Hk; [|done].
      injection Hd as Hd. unfold timerFired in Hd. rewrite Hstop in Hd.
      injection Hd as <- <-.
      destruct (IH (a, cancelAnimationFrame (tref a)
                         (set_timers (delete k (timers p)) p)) st'
                  Hstop Hcb Hrun)
        as (Hs & Hfr & Hlen).
      cbn [fst snd frames timers cancelAnimationFrame set_frames set_timers
           length List.filter isFrame] in *.
      pose proof (filter_length_le (fun h' => negb (h' =? tref a)) (frames p)).
      assert (length (delete k (timers p)) = (length (timers p) - 1)%nat) as Hdel
        by (apply length_delete; by rewrite Hk).
      assert (k < length (timers p))%nat by (by eapply lookup_lt_Some).
      split; [done|]. lia.
Qed.

Lemma stopped_loop_runs_out_witness :
  exists st',
    (isPlaying (fst (pause examplePlaying)) = false /\
     forallb isCallback [FrameDue 1 16; TimerDue 0] = true /\
     run [FrameDue 1 16; TimerDue 0] (pause examplePlaying) = Some st') /\
    isPlaying (fst st') = false /\
    (length (List.filter isFrame [FrameDue 1 16; TimerDue 0])
     <= length (frames (snd (pause examplePlaying))))%nat /\
    (length [FrameDue 1 16; TimerDue 0]
     <= 2 * length (frames (snd (pause examplePlaying)))
        + length (timers (snd (pause examplePlaying))))%nat.
Proof.
  eexists.
  assert (isPlaying (fst (pause examplePlaying)) = false) as H1 by reflexivity.
  assert (forallb isCallback [FrameDue 1 16; TimerDue 0] = true) as H2
    by reflexivity.
  assert (run [FrameDue 1 16; TimerDue 0] (pause examplePlaying) = Some _) as H3
    by (vm_compute; reflexivity).
  split; [exact (conj H1 (conj H2 H3))|].
  exact (stopped_loop_runs_out _ _ _ H1 H2 H3).
Defined.

(** One round of a running loop, with the handle the next round will
    use. *)
Lemma loop_round_next a p h time :
  well_formed (board a) ->
  isPlaying a = true -> frames p = [h] -> timers p = [] ->
  exists a' p',
    run [FrameDue h time; TimerDue 0] (a, p) = Some (a', p') /\
    board a' = Reference.step (board a) /\
    isPlaying a' = true /\
    frames p' = [nextHandle p] /\ timers p' = [] /\
    nextHandle p' = nextHandle p + 1.
Proof.
  intros Hwf Hplay Hfr Htm.
  destruct (animate_spec time a
              (set_frames (List.filter (fun h' => negb (h' =? h)) (frames p)) p))
    as [style Han]; [done|].
  eexists. eexists. split.
  { unfold run. cbn [forEach].
    change (dispatch (FrameDue h time) (a, p))
      with (if bool_decide (h ∈ frames p)
            then animate time
                   (a, set_frames
                         (List.filter (fun h' => negb (h' =? h)) (frames p)) p)
            else None).
    rewrite bool_decide_true by (rewrite Hfr; by left).
    rewrite Han. cbn [mbind option_bind]. unfold dispatch.
    cbn [timers setTimeout set_timers set_ctx set_lastTime set_frames].
    rewrite Htm. cbn [List.app lookup list_lookup mbind option_bind].
    unfold timerFired. cbn [set_board isPlaying]. rewrite Hplay.
    cbn [requestAnimationFrame]. reflexivity. }
  cbn [board set_board set_tref isPlaying frames timers nextHandle
       set_timers setTimeout set_ctx set_lastTime set_frames delete
       list_delete List.app].
  rewrite Hfr. cbn [List.filter]. rewrite Z.eqb_refl. cbn [negb List.app].
  by rewrite Hplay.
Qed.

Lemma playing_rounds times : forall a p h,
  well_formed (board a) ->
  isPlaying a = true -> frames p = [h] -> timers p = [] ->
  nextHandle p = h + 1 ->
  exists a' p',
    run (rounds times h) (a, p) = Some (a', p') /\
    generations (length times) (board a) = Some (board a') /\
    isPlaying a' = true /\
    frames p' = [h + Z.of_nat (length times)] /\ timers p' = [].
Proof.
  induction times as [|t ts IH]; intros a p h Hwf Hplay Hfr Htm Hnext.
  - exists a, p. simpl. rewrite Z.add_0_r. done.
  - destruct (loop_round_next a p h t Hwf Hplay Hfr Htm)
      as (a1 & p1 & Hrun1 & Hb1 & Hp1 & Hf1 & Ht1 & Hn1).
    destruct (IH a1 p1 (h + 1)) as (a' & p' & Hrun & Hgen & Hp' & Hf' & Ht');
      try done.
    { rewrite Hb1. by apply step_well_formed. }
    { by rewrite Hf1, Hnext. }
    { rewrite Hn1, Hnext. done. }
    exists a', p'. split; [|split; [|split; [done|split; [|done]]]].
    + unfold run in *. cbn [rounds forEach] in *.
      destruct (dispatch (FrameDue h t) (a, p)) as [s1|];
        cbn [mbind option_bind] in *; [|done].
      destruct (dispatch (TimerDue 0) s1) as [s2|];
        cbn [mbind option_bind] in *; [|done].
      injection Hrun1 as ->. exact Hrun.
    + cbn [length generations]. rewrite tick_reference by done.
      cbn [mbind option_bind]. by rewrite <- Hb1.
    + rewrite Hf'. f_equal. cbn [length]. lia.
Qed.

(** X15. While playing, each round of the loop (a frame and the timer it
    sets) is one generation: after play on the script's controller and any
    number of rounds, the board is that many generations after the initial
    one, the controller still plays and exactly one frame is pending. *)
Theorem animation_computes_generations draws times :
  exists st0 st',
    ac draws = Some st0 /\
    run (PlayClicked :: rounds times 1) st0 = Some st' /\
    generations (length times) (board (fst st0)) = Some (board (fst st')) /\
    isPlaying (fst st') = true /\
    frames (snd st') = [1 + Z.of_nat (length times)] /\
    timers (snd st') = [].
Proof.
  destruct (ac_spec draws)
    as ([a0 p0] & H0 & Hwf & _ & _ & Hplay & Hfr & Htm & Hnext).
  cbn [fst snd] in *.
  exists (a0, p0). revert H0. generalize (ac draws). intros o H0.
  destruct (playing_rounds times
              {| fps := fps a0; board := board a0; isPlaying := true;
                 tref := nextHandle p0 |}
              (snd (requestAnimationFrame p0)) 1)
    as (a' & p' & Hrun & Hgen & Hp' & Hf' & Ht'); try done.
  { cbn [requestAnimationFrame snd frames]. by rewrite Hfr, Hnext. }
  { cbn [requestAnimationFrame snd nextHandle]. by rewrite Hnext. }
  exists (a', p'). split; [exact H0|]. split; [|done].
  unfold run in *. cbn [forEach].
  change (dispatch PlayClicked (a0, p0)) with (Some (play (a0, p0))).
  rewrite (play_starts_loop a0 p0 Hplay). exact Hrun.
Qed.
End LoopExtras.

Section TwoLoops.
Import AnimationController.

Lemma frame_step a p h t :
  well_formed (board a) -> h ∈ frames p ->
  exists p',
    dispatch (FrameDue h t) (a, p) =
      Some (set_board (Reference.step (board a)) a, p') /\
    frames p' = List.filter (fun h' => negb (h' =? h)) (frames p) /\
    timers p' = timers p ++ [1000 / fps a] /\
    nextHandle p' = nextHandle p.
Proof.
  intros Hwf Hin.
  destruct (animate_spec t a
              (set_frames (List.filter (fun h' => negb (h' =? h)) (frames p)) p)
              Hwf) as [style Han].
  eexists. split.
  - unfold dispatch. rewrite bool_decide_true by done. exact Han.
  - done.
Qed.

Lemma timer_step_playing a p k d :
  isPlaying a = true -> timers p !! k = Some d ->
  exists p',
    dispatch (TimerDue k) (a, p) = Some (set_tref (nextHandle p) a, p') /\
    frames p' = frames p ++ [nextHandle p] /\
    timers p' = delete k (timers p) /\
    nextHandle p' = nextHandle p + 1.
Proof.
  intros Hplay Hk. eexists. split.
  - unfold dispatch. rewrite Hk. unfold timerFired. rewrite Hplay.
    cbn [requestAnimationFrame nextHandle set_timers]. reflexivity.
  - done.
Qed.

Lemma play_step a p :
  isPlaying a = false ->
  exists p',
    dispatch PlayClicked (a, p) =
      Some (set_tref (nextHandle p) (set_isPlaying true a), p') /\
    frames p' = frames p ++ [nextHandle p] /\
    timers p' = timers p /\
    nextHandle p' = nextHandle p + 1.
Proof.
  intros Hplay. eexists. split.
  - unfold dispatch, play. rewrite Hplay. cbn [negb requestAnimationFrame].
    reflexivity.
  - done.
Qed.

(** X16. The guard of play does not keep the loops apart: play clicked
    after pause while the timer of the last tick is still pending requests a
    frame of its own, the timer then finds the controller playing and
    requests another, and from then on two loops run: both frames are
    delivered, the board advances by two generations and two timers are
    pending. *)
Theorem pause_then_play_runs_two_loops a p d t1 t2 :
  well_formed (board a) ->
  isPlaying a = true -> frames p = [] -> timers p = [d] ->
  exists a' p',
    run [PauseClicked; PlayClicked; TimerDue 0;
         FrameDue (nextHandle p) t1; FrameDue (nextHandle p + 1) t2] (a, p)
      = Some (a', p') /\
    generations 2 (board a) = Some (board a') /\
    isPlaying a' = true /\
    frames p' = [] /\
    timers p' = [1000 / fps a; 1000 / fps a].
Proof.
  intros Hwf Hplay Hfr Htm.
  set (h := nextHandle p).
  set (a1 := set_isPlaying false a).
  destruct (play_step a1 p) as (p2 & Hd2 & Hf2 & Ht2 & Hn2); [done|].
  set (a2 := set_tref (nextHandle p) (set_isPlaying true a1)) in *.
  destruct (timer_step_playing a2 p2 0 d) as (p3 & Hd3 & Hf3 & Ht3 & Hn3);
    [done|by rewrite Ht2, Htm|].
  set (a3 := set_tref (nextHandle p2) a2) in *.
  rewrite Hf2, Hfr, Hn2 in Hf3. cbn [List.app] in Hf3. fold h in Hf3.
  rewrite Ht2, Htm in Ht3. cbn [delete list_delete] in Ht3.
  destruct (frame_step a3 p3 h t1) as (p4 & Hd4 & Hf4 & Ht4 & Hn4);
    [done|rewrite Hf3; by left|].
  set (a4 := set_board (Reference.step (board a3)) a3) in *.
  rewrite Hf3 in Hf4. cbn [List.filter] in Hf4.
  rewrite Z.eqb_refl in Hf4. cbn [negb] in Hf4.
  assert ((h + 1 =? h) = false) as Hne by (apply Z.eqb_neq; lia).
  rewrite Hne in Hf4. cbn [negb] in Hf4.
  rewrite Ht3 in Ht4. cbn [List.app] in Ht4.
  assert (well_formed (board a4)) as Hwf4 by (by apply step_well_formed).
  destruct (frame_step a4 p4 (h + 1) t2) as (p5 & Hd5 & Hf5 & Ht5 & Hn5);
    [done|rewrite Hf4; by left|].
  rewrite Hf4 in Hf5. cbn [List.filter] in Hf5.
  rewrite Z.eqb_refl in Hf5. cbn [negb] in Hf5.
  rewrite Ht4 in Ht5. cbn [List.app] in Ht5.
  eexists. exists p5. split.
  { unfold run. cbn [forEach].
    change (dispatch PauseClicked (a, p)) with (Some (pause (a, p))).
    rewrite (pause_stops a p Hplay). cbn [mbind option_bind]. fold a1.
    rewrite Hd2. cbn [mbind option_bind].
    rewrite Hd3. cbn [mbind option_bind].
    rewrite Hd4. cbn [mbind option_bind].
    rewrite Hd5. cbn [mbind option_bind]. reflexivity. }
  cbn [board set_board isPlaying fps a4 a3 a2 a1 set_tref set_isPlaying] in *.
  split; [|done].
  cbn [generations]. rewrite tick_reference by done. cbn [mbind option_bind].
  by rewrite tick_reference by done.
Qed.

Lemma pause_then_play_runs_two_loops_witness :
  (well_formed (board (fst exampleWaiting)) /\
   isPlaying (fst exampleWaiting) = true /\
   frames (snd exampleWaiting) = [] /\
   timers (snd exampleWaiting) = [200]) /\
  exists a' p',
    run [PauseClicked; PlayClicked; TimerDue 0;
         FrameDue (nextHandle (snd exampleWaiting)) 216;
         FrameDue (nextHandle (snd exampleWaiting) + 1) 217] exampleWaiting
      = Some (a', p') /\
    generations 2 (board (fst exampleWaiting)) = Some (board a') /\
    isPlaying a' = true /\
    frames p' = [] /\
    timers p' = [1000 / fps (fst exampleWaiting);
                 1000 / fps (fst exampleWaiting)].
Proof.
  assert (well_formed (board (fst exampleWaiting))) as H1
    by apply exampleBoard_well_formed.
  assert (isPlaying (fst exampleWaiting) = true) as H2 by reflexivity.
  assert (frames (snd exampleWaiting) = []) as H3 by reflexivity.
  assert (timers (snd exampleWaiting) = [200]) as H4 by reflexivity.
  split; [auto|].
  exact (pause_then_play_runs_two_loops (fst exampleWaiting)
           (snd exampleWaiting) 200 216 217 H1 H2 H3 H4).
Defined.
End TwoLoops.
